(** * khmz::mutex, khmz::recursive_mutex, khmz::lock_guard, khmz::unique_lock

    A shallow embedding of [mutex.hpp].  Every member function is a
    state-passing computation run by one calling thread; its result says
    whether the call returned, let an exception escape, ended in
    [std::terminate], is waiting on a lock another thread holds, or has no
    defined behaviour (null or dangling pointer, misuse of the OS record). *)

From stdpp Require Import base option list gmap strings.
From Stdlib Require Import ZArith Lia.

Set Default Proof Using "Type".
Local Open Scope Z_scope.

(** ** Threads, addresses, exceptions *)

(** The identity of the calling thread. *)
Definition tid := nat.

(** The address of an object (a lock or a guard). *)
Definition loc := nat.

(** [std::runtime_error(what)], the only exception type the header throws. *)
Inductive exn : Type :=
| runtime_error (what : string).

(** ** Build configuration *)

(** The two preprocessor inputs of the header: whether
    [KHMZ_DISABLE_THROW] is defined, and the value of [__cplusplus]. *)
Record config : Type := Config {
  KHMZ_DISABLE_THROW : bool;
  cplusplus : Z
}.

(** [#if (__cplusplus >= 201103L)] *)
Definition cpp11 (cfg : config) : bool := 201103 <=? cplusplus cfg.

(** ** Results of a call *)

Inductive result (St A : Type) : Type :=
| Returned (a : A) (s : St)   (* normal return *)
| Raised (e : exn) (s : St)   (* an exception leaves the call *)
| Terminated (s : St)         (* an exception met a noexcept boundary *)
| Blocked (s : St)            (* the wait is not satisfied in this state *)
| Undefined.                 (* undefined behaviour *)

Arguments Returned {St A} a s.
Arguments Raised {St A} e s.
Arguments Terminated {St A} s.
Arguments Blocked {St A} s.
Arguments Undefined {St A}.

(** A computation over a state of type [St]. *)
Definition Mon (St A : Type) : Type := St -> result St A.

Definition ret {St A} (a : A) : Mon St A := fun s => Returned a s.

Definition bind {St A B} (c : Mon St A) (k : A -> Mon St B) : Mon St B :=
  fun s =>
    match c s with
    | Returned a s' => k a s'
    | Raised e s' => Raised e s'
    | Terminated s' => Terminated s'
    | Blocked s' => Blocked s'
    | Undefined => Undefined
    end.

Declare Scope mon_scope.
Delimit Scope mon_scope with mon.
Bind Scope mon_scope with Mon.
Notation "x <- c1 ;; c2" := (bind c1 (fun x => c2))
  (at level 100, c1 at next level, c2 at level 200, right associativity)
  : mon_scope.
Notation "c1 ;; c2" := (bind c1 (fun _ => c2))
  (at level 100, c2 at level 200, right associativity) : mon_scope.
Local Open Scope mon_scope.

(** [throw e] *)
Definition throw {St A} (e : exn) : Mon St A := fun s => Raised e s.

(** [if (c) stmt;] *)
Definition when {St} (c : bool) (stmt : Mon St unit) : Mon St unit :=
  if c then stmt else ret tt.

(** [try { body } catch (...) { handler }] *)
Definition try_catch {St A} (body : Mon St A) (handler : exn -> Mon St A) : Mon St A :=
  fun s =>
    match body s with
    | Raised e s' => handler e s'
    | r => r
    end.

(** A [noexcept] function: an exception that reaches its boundary calls
    [std::terminate]. *)
Definition noexcept {St A} (body : Mon St A) : Mon St A :=
  fun s =>
    match body s with
    | Raised _ s' => Terminated s'
    | r => r
    end.

(** The state a call leaves behind, when it leaves one. *)
Definition state_of {St A} (r : result St A) : option St :=
  match r with
  | Returned _ s | Raised _ s | Terminated s | Blocked s => Some s
  | Undefined => None
  end.

(** Transport a result along a change of state. *)
Definition result_map {St St' A} (f : St -> St') (r : result St A) : result St' A :=
  match r with
  | Returned a s => Returned a (f s)
  | Raised e s => Raised e (f s)
  | Terminated s => Terminated (f s)
  | Blocked s => Blocked (f s)
  | Undefined => Undefined
  end.

Section Macros.
Context {St : Type} (cfg : config).

(** [khmz_throw(e)]: [throw (e)], or [do { } while (0)] when
    [KHMZ_DISABLE_THROW] is defined. *)
Definition khmz_throw (e : exn) : Mon St unit :=
  if KHMZ_DISABLE_THROW cfg then ret tt else throw e.

(** [khmz_noexcept]: [noexcept] from C++11 on, empty before. *)
Definition khmz_noexcept {A} (body : Mon St A) : Mon St A :=
  if cpp11 cfg then noexcept body else body.
End Macros.

(** ** The operating system's primitives *)

Module Win32.

Definition DWORD := Z.
Definition BOOL := Z.

Definition WAIT_OBJECT_0 : DWORD := 0.
Definition WAIT_ABANDONED : DWORD := 128.
Definition WAIT_TIMEOUT : DWORD := 258.
Definition WAIT_FAILED : DWORD := 4294967295.
Definition INFINITE : DWORD := 4294967295.
Definition TRUE : BOOL := 1.
Definition FALSE : BOOL := 0.

(** Modelled from the spec: the kernel mutual-exclusion object behind a
    [HANDLE] is not part of the header.  It records the owning thread
    (none when the object is available), how many times the owner has
    acquired it, and whether a previous owner left it abandoned. *)
Record kernel_mutex : Type := KernelMutex {
  km_owner : option tid;
  km_count : nat;
  km_abandoned : bool
}.

(** A [HANDLE] is [NULL] or denotes a kernel object. *)
Definition HANDLE := option kernel_mutex.

(** Modelled from the spec: [CreateMutex(NULL, FALSE, NULL)] creates an
    anonymous, initially unowned object, or returns [NULL] when the OS
    cannot allocate it ([os_ok = false]). *)
Definition CreateMutex (os_ok : bool) : HANDLE :=
  if os_ok then Some (KernelMutex None 0 false) else None.

Inductive wait_outcome : Type :=
| WaitReturns (code : DWORD) (h : HANDLE)
| WaitBlocks.

(** Modelled from the spec: [WaitForSingleObject(h, dwMilliseconds)] called
    by thread [t].  The wait is satisfied when no other thread owns the
    object, which then becomes owned by the caller; an abandoned object is
    reported as such; a [NULL] handle is an error; with another owner a
    zero (or finite) wait times out and an infinite one blocks. *)
Definition WaitForSingleObject (t : tid) (h : HANDLE) (dwMilliseconds : DWORD)
  : wait_outcome :=
  match h with
  | None => WaitReturns WAIT_FAILED None
  | Some k =>
      match km_owner k with
      | None =>
          if km_abandoned k
          then WaitReturns WAIT_ABANDONED (Some (KernelMutex (Some t) 1 false))
          else WaitReturns WAIT_OBJECT_0 (Some (KernelMutex (Some t) 1 false))
      | Some o =>
          if decide (o = t)
          then WaitReturns WAIT_OBJECT_0
                 (Some (KernelMutex (Some t) (S (km_count k)) (km_abandoned k)))
          else if dwMilliseconds =? INFINITE then WaitBlocks
          else WaitReturns WAIT_TIMEOUT h
      end
  end.

(** Modelled from the spec: [ReleaseMutex(h)] called by thread [t]
    relinquishes one acquisition and fails, changing nothing, when the
    caller does not own the object. *)
Definition ReleaseMutex (t : tid) (h : HANDLE) : BOOL * HANDLE :=
  match h with
  | None => (FALSE, None)
  | Some k =>
      match km_owner k with
      | Some o =>
          if decide (o = t)
          then match km_count k with
               | S (S n) =>
                   (TRUE, Some (KernelMutex (Some t) (S n) (km_abandoned k)))
               | _ => (TRUE, Some (KernelMutex None 0 (km_abandoned k)))
               end
          else (FALSE, h)
      | None => (FALSE, h)
      end
  end.

(** Modelled from the spec: the in-process critical-section record, with
    its owner and its integer recursion count. *)
Record CRITICAL_SECTION : Type := CriticalSection {
  OwningThread : option tid;
  RecursionCount : Z
}.

(** Modelled from the spec: [InitializeCriticalSection]. *)
Definition InitializeCriticalSection : CRITICAL_SECTION :=
  CriticalSection None 0.

(** Modelled from the spec: [EnterCriticalSection] blocks until the section
    is available or already owned by the caller, whose recursion count it
    increments.  [None] stands for the blocked call. *)
Definition EnterCriticalSection (t : tid) (cs : CRITICAL_SECTION)
  : option CRITICAL_SECTION :=
  match OwningThread cs with
  | None => Some (CriticalSection (Some t) 1)
  | Some o =>
      if decide (o = t)
      then Some (CriticalSection (Some t) (RecursionCount cs + 1))
      else None
  end.

(** Modelled from the spec: [TryEnterCriticalSection] is the same attempt
    without waiting; it returns nonzero on success. *)
Definition TryEnterCriticalSection (t : tid) (cs : CRITICAL_SECTION)
  : BOOL * CRITICAL_SECTION :=
  match EnterCriticalSection t cs with
  | Some cs' => (TRUE, cs')
  | None => (FALSE, cs)
  end.

(** Modelled from the spec: [LeaveCriticalSection] decrements the recursion
    count and makes the section available when it reaches zero; a release
    by a thread that does not own the section is undefined ([None]). *)
Definition LeaveCriticalSection (t : tid) (cs : CRITICAL_SECTION)
  : option CRITICAL_SECTION :=
  match OwningThread cs with
  | Some o =>
      if decide (o = t)
      then if RecursionCount cs - 1 =? 0
           then Some (CriticalSection None 0)
           else Some (CriticalSection (Some t) (RecursionCount cs - 1))
      else None
  | None => None
  end.

End Win32.

(** ** The interface the guards require of [T_MUTEX] *)

Class Lockable (M : Type) : Type := {
  T_lock : config -> tid -> Mon M unit;
  T_unlock : config -> tid -> Mon M unit;
  T_try_lock : config -> tid -> Mon M bool
}.

(** ** class mutex *)

Module mutex.
Import Win32.

Record t : Type := Mutex { m_hMutex : HANDLE }.

Definition ctor (cfg : config) (os_ok : bool) : result t unit :=
  let this := Mutex (CreateMutex os_ok) in
  (when (negb (bool_decide (is_Some (m_hMutex this))))
     (khmz_throw cfg
        (runtime_error "Failed to create mutex at khmz::mutex::mutex")))
    this.

Definition lock (cfg : config) (caller : tid) : Mon t unit := fun this =>
  match WaitForSingleObject caller (m_hMutex this) INFINITE with
  | WaitBlocks => Blocked this
  | WaitReturns dwWaitResult h =>
      (when (negb (dwWaitResult =? WAIT_OBJECT_0))
         (khmz_throw cfg
            (runtime_error "Failed to lock mutex at khmz::mutex::lock")))
        (Mutex h)
  end.

Definition unlock (cfg : config) (caller : tid) : Mon t unit := fun this =>
  let '(ok, h) := ReleaseMutex caller (m_hMutex this) in
  (when (ok =? 0)
     (khmz_throw cfg
        (runtime_error "Failed to release mutex at khmz::mutex::unlock")))
    (Mutex h).

Definition try_lock (cfg : config) (caller : tid) : Mon t bool :=
  khmz_noexcept cfg (fun this =>
    match WaitForSingleObject caller (m_hMutex this) 0 with
    | WaitBlocks => Blocked this
    | WaitReturns dwWaitResult h =>
        Returned (dwWaitResult =? WAIT_OBJECT_0) (Mutex h)
    end).

Definition native_handle (cfg : config) : Mon t HANDLE :=
  khmz_noexcept cfg (fun this => Returned (m_hMutex this) this).

End mutex.

#[export] Instance mutex_Lockable : Lockable mutex.t := {
  T_lock := mutex.lock;
  T_unlock := mutex.unlock;
  T_try_lock := mutex.try_lock
}.

(** ** class recursive_mutex *)

Module recursive_mutex.
Import Win32.

Record t : Type := RecursiveMutex { m_cs : CRITICAL_SECTION }.

Definition ctor : t := RecursiveMutex InitializeCriticalSection.

Definition lock (cfg : config) (caller : tid) : Mon t unit :=
  khmz_noexcept cfg (fun this =>
    match EnterCriticalSection caller (m_cs this) with
    | Some cs => Returned tt (RecursiveMutex cs)
    | None => Blocked this
    end).

Definition unlock (cfg : config) (caller : tid) : Mon t unit :=
  khmz_noexcept cfg (fun this =>
    match LeaveCriticalSection caller (m_cs this) with
    | Some cs => Returned tt (RecursiveMutex cs)
    | None => Undefined
    end).

Definition try_lock (cfg : config) (caller : tid) : Mon t bool :=
  khmz_noexcept cfg (fun this =>
    let '(r, cs) := TryEnterCriticalSection caller (m_cs this) in
    Returned (negb (r =? 0)) (RecursiveMutex cs)).

End recursive_mutex.

#[export] Instance recursive_mutex_Lockable : Lockable recursive_mutex.t := {
  T_lock := recursive_mutex.lock;
  T_unlock := recursive_mutex.unlock;
  T_try_lock := recursive_mutex.try_lock
}.

(** ** Objects in memory *)

(** What a guard does to the lock it refers to, in program order. *)
Inductive event : Type :=
| EvLock (m : loc)       (* [m.lock()] *)
| EvTryLock (m : loc)    (* [m.try_lock()] *)
| EvUnlock (m : loc).    (* [m.unlock()] *)

#[export] Instance event_eq_dec : EqDecision event.
Proof. solve_decision. Defined.

(** The data members of [unique_lock<T_MUTEX>]; [None] is [nullptr]. *)
Record unique_lock_obj : Type := UniqueLock {
  m_mutex : option loc;
  m_owns_lock : bool
}.

(** The locks and the movable guards that are alive, each at its address,
    and the calls made on the locks so far. *)
Record world (M : Type) : Type := World {
  mutexes : gmap loc M;
  guards : gmap loc unique_lock_obj;
  trace : list event
}.

Arguments World {M} _ _ _.
Arguments mutexes {M} _.
Arguments guards {M} _.
Arguments trace {M} _.

Section Memory.
Context {M : Type}.

Definition set_mutex (a : loc) (m : M) (w : world M) : world M :=
  World (<[a := m]> (mutexes w)) (guards w) (trace w).

Definition set_guard (a : loc) (g : unique_lock_obj) (w : world M) : world M :=
  World (mutexes w) (<[a := g]> (guards w)) (trace w).

Definition log (ev : event) (w : world M) : world M :=
  World (mutexes w) (guards w) (trace w ++ [ev]).

(** The world once the call [ev a] has left the lock at [a] in state [m']. *)
Definition after (ev : loc -> event) (a : loc) (m' : M) (w : world M) : world M :=
  set_mutex a m' (log (ev a) w).

(** A member function called through a pointer to a lock: the call is
    recorded, then runs on the object the pointer designates.  A null
    pointer, or one to no live lock, has no defined behaviour. *)
Definition call {A} (p : option loc) (ev : loc -> event) (method : Mon M A)
  : Mon (world M) A := fun w =>
  match p with
  | None => Undefined
  | Some a =>
      match mutexes w !! a with
      | None => Undefined
      | Some m => result_map (fun m' => after ev a m' w) (method m)
      end
  end.

(** Reading and writing the members of the guard at [this]. *)
Definition load (this : loc) : Mon (world M) unique_lock_obj := fun w =>
  match guards w !! this with
  | None => Undefined
  | Some g => Returned g w
  end.

Definition read_m_mutex (this : loc) : Mon (world M) (option loc) :=
  g <- load this ;; ret (m_mutex g).

Definition read_m_owns_lock (this : loc) : Mon (world M) bool :=
  g <- load this ;; ret (m_owns_lock g).

Definition write_m_mutex (this : loc) (p : option loc) : Mon (world M) unit :=
  g <- load this ;;
  fun w => Returned tt (set_guard this (UniqueLock p (m_owns_lock g)) w).

Definition write_m_owns_lock (this : loc) (b : bool) : Mon (world M) unit :=
  g <- load this ;;
  fun w => Returned tt (set_guard this (UniqueLock (m_mutex g) b) w).

(** [m_mutex->method()] inside a member function of the guard at [this]. *)
Definition arrow {A} (this : loc) (ev : loc -> event) (method : Mon M A)
  : Mon (world M) A :=
  p <- read_m_mutex this ;; call p ev method.

(** A constructor's member initialiser list brings the guard to life. *)
Definition init (this : loc) (p : option loc) (b : bool) : Mon (world M) unit :=
  fun w => Returned tt (set_guard this (UniqueLock p b) w).

(** How many times [a.unlock()] was called. *)
Definition releases (a : loc) (tr : list event) : nat :=
  length (filter (fun ev => ev = EvUnlock a) tr).
End Memory.

(** ** template <typename T_MUTEX> class lock_guard *)

Module lock_guard.
Section lock_guard.
Context {T_MUTEX : Type} `{!Lockable T_MUTEX}.
Context (cfg : config) (caller : tid).

(** The guard holds a reference, which is never null. *)
Record t : Type := LockGuard { m_mutex : loc }.

Definition ctor (m : loc) : Mon (world T_MUTEX) t :=
  khmz_noexcept cfg
    (let this := LockGuard m in
     call (Some (m_mutex this)) EvLock (T_lock cfg caller) ;;
     ret this).

Definition dtor (this : t) : Mon (world T_MUTEX) unit :=
  khmz_noexcept cfg
    (call (Some (m_mutex this)) EvUnlock (T_unlock cfg caller)).

(** [{ lock_guard<T_MUTEX> g(m); body }]: the destructor runs when the
    body returns and when an exception leaves it.  In the second case the
    body's exception goes on once the destructor is done; an exception
    leaving the destructor during that unwinding calls [std::terminate]. *)
Definition scope {A} (m : loc) (body : Mon (world T_MUTEX) A)
  : Mon (world T_MUTEX) A :=
  g <- ctor m ;;
  fun w =>
    match body w with
    | Returned a w' => (dtor g ;; ret a) w'
    | Raised e w' => (noexcept (dtor g) ;; throw e) w'
    | r => r
    end.
End lock_guard.
End lock_guard.

(** ** template <typename T_MUTEX> class unique_lock *)

Module unique_lock.
Section unique_lock.
Context {T_MUTEX : Type} `{!Lockable T_MUTEX}.
Context (cfg : config) (caller : tid).

Local Abbreviation Call A := (Mon (world T_MUTEX) A).

(** [m_mutex->lock()], [m_mutex->try_lock()], [m_mutex->unlock()] *)
Definition mutex_lock (this : loc) : Call unit :=
  arrow this EvLock (T_lock cfg caller).

Definition mutex_try_lock (this : loc) : Call bool :=
  arrow this EvTryLock (T_try_lock cfg caller).

Definition mutex_unlock (this : loc) : Call unit :=
  arrow this EvUnlock (T_unlock cfg caller).

Definition ctor (this : loc) (m : loc) : Call unit :=
  khmz_noexcept cfg
    (init this (Some m) true ;;
     mutex_lock this).

Definition default_ctor (this : loc) : Call unit :=
  khmz_noexcept cfg (init this None false).

(** The two move members exist only under [#if (__cplusplus >= 201103L)]. *)
Definition has_move : bool := cpp11 cfg.

Definition move_ctor (this other : loc) : Call unit :=
  khmz_noexcept cfg
    (o <- load other ;;
     init this (m_mutex o) (m_owns_lock o) ;;
     write_m_mutex other None ;;
     write_m_owns_lock other false).

Definition move_assign (this other : loc) : Call unit :=
  khmz_noexcept cfg
    (when (negb (bool_decide (this = other)))
       (owns <- read_m_owns_lock this ;;
        p <- read_m_mutex this ;;
        when (owns && bool_decide (is_Some p)) (mutex_unlock this) ;;
        q <- read_m_mutex other ;;
        write_m_mutex this q ;;
        b <- read_m_owns_lock other ;;
        write_m_owns_lock this b ;;
        write_m_mutex other None ;;
        write_m_owns_lock other false)).

Definition dtor (this : loc) : Call unit :=
  khmz_noexcept cfg
    (owns <- read_m_owns_lock this ;;
     when owns (mutex_unlock this)).

Definition lock (this : loc) : Call unit :=
  owns <- read_m_owns_lock this ;;
  when owns
    (khmz_throw cfg
       (runtime_error "Lock already owned at khmz::unique_lock::lock")) ;;
  if KHMZ_DISABLE_THROW cfg
  then
    mutex_lock this ;;
    write_m_owns_lock this true
  else
    try_catch
      (mutex_lock this ;;
       write_m_owns_lock this true)
      (fun e =>
         write_m_owns_lock this false ;;
         throw e).

Definition try_lock (this : loc) : Call bool :=
  owns <- read_m_owns_lock this ;;
  when owns
    (khmz_throw cfg
       (runtime_error "Lock already owned at khmz::unique_lock::try_lock")) ;;
  b <- mutex_try_lock this ;;
  write_m_owns_lock this b ;;
  read_m_owns_lock this.

Definition unlock (this : loc) : Call unit :=
  owns <- read_m_owns_lock this ;;
  when (negb owns)
    (khmz_throw cfg
       (runtime_error "No lock to release at khmz::unique_lock::unlock")) ;;
  mutex_unlock this ;;
  write_m_owns_lock this false.

Definition release (this : loc) : Call unit :=
  khmz_noexcept cfg
    (write_m_mutex this None ;;
     write_m_owns_lock this false).

Definition owns_lock (this : loc) : Call bool :=
  khmz_noexcept cfg (read_m_owns_lock this).
End unique_lock.
End unique_lock.

(** ** Vocabulary of the properties *)

(** The three usage-order errors of [unique_lock]. *)
Definition already_owned_lock : exn :=
  runtime_error "Lock already owned at khmz::unique_lock::lock".

Definition already_owned_try_lock : exn :=
  runtime_error "Lock already owned at khmz::unique_lock::try_lock".

Definition no_lock_to_release : exn :=
  runtime_error "No lock to release at khmz::unique_lock::unlock".

(** An exception of the lock itself is told from a usage-order error of the
    guard by its message: the lock type never throws [e]. *)
Definition never_throws {M A} (method : Mon M A) (e : exn) : Prop :=
  forall m e' m', method m = Raised e' m' -> e' <> e.

(** A guard with no association and no ownership, as the default constructor
    and [release()] leave it. *)
Definition detached : unique_lock_obj := UniqueLock None false.

(** The world once guard [other] has been moved into guard [this]: [this]
    holds what [other] held, [other] holds nothing. *)
Definition moved {M} (this other : loc) (o : unique_lock_obj) (w : world M)
  : world M :=
  set_guard other detached (set_guard this o w).

(** The two ways control leaves a scope: the body returns, or an exception
    leaves it. *)
Definition exits {St A} (r : result St A) (s : St) : Prop :=
  (exists a, r = Returned a s) \/ (exists e, r = Raised e s).

(** [c] run [n] times in a row. *)
Fixpoint times {St} (n : nat) (c : Mon St unit) : Mon St unit :=
  match n with
  | O => ret tt
  | S n' => c ;; times n' c
  end.

(** A recursive lock that thread [t] holds with recursion count [c]. *)
Definition held (t : tid) (c : Z) : recursive_mutex.t :=
  recursive_mutex.RecursiveMutex (Win32.CriticalSection (Some t) c).

(** A basic lock that thread [o] owns. *)
Definition owned_by (m : mutex.t) (o : tid) : Prop :=
  exists k, mutex.m_hMutex m = Some k /\ Win32.km_owner k = Some o.

(** A basic lock no thread owns, and that no owner abandoned. *)
Definition available (m : mutex.t) : Prop :=
  exists k, mutex.m_hMutex m = Some k
            /\ Win32.km_owner k = None /\ Win32.km_abandoned k = false.

(** A call that has a defined behaviour. *)
Definition well_defined {St A} (r : result St A) : Prop := r <> Undefined.

(** A guard that refers to a lock. *)
Definition associated (g : unique_lock_obj) : Prop := is_Some (m_mutex g).

(** The default build, and the build with [KHMZ_DISABLE_THROW] defined. *)
Definition throwing (cfg : config) : Prop := KHMZ_DISABLE_THROW cfg = false.
Definition silent (cfg : config) : Prop := KHMZ_DISABLE_THROW cfg = true.

(** ** Concrete builds, threads and worlds *)

Definition default_build : config := Config false 201103.
Definition silent_build : config := Config true 201103.

Definition thread_1 : tid := 1%nat.
Definition thread_2 : tid := 2%nat.

Definition lock_L : loc := 1%nat.
Definition lock_K : loc := 2%nat.
Definition guard_G : loc := 10%nat.
Definition guard_H : loc := 11%nat.

(** What [mutex::mutex()] builds when the OS provides the object, and the
    same lock once [thread_1] has acquired it. *)
Definition fresh_mutex : mutex.t := mutex.Mutex (Win32.CreateMutex true).

Definition mutex_of_thread_1 : mutex.t :=
  mutex.Mutex (Some (Win32.KernelMutex (Some thread_1) 1 false)).

(** A lock whose previous owner ended without releasing it. *)
Definition abandoned_mutex : mutex.t :=
  mutex.Mutex (Some (Win32.KernelMutex None 0 true)).

(** [mutex L;] *)
Definition one_mutex : world mutex.t :=
  World {[ lock_L := fresh_mutex ]} ∅ [].

(** [mutex L; unique_lock<mutex> G;] *)
Definition detached_world : world mutex.t :=
  World {[ lock_L := fresh_mutex ]} {[ guard_G := detached ]} [].

(** [mutex L; unique_lock<mutex> G(L);] run by [thread_1]. *)
Definition owning_world : world mutex.t :=
  World {[ lock_L := mutex_of_thread_1 ]}
        {[ guard_G := UniqueLock (Some lock_L) true ]}
        [EvLock lock_L].

(** A guard that refers to [L] without owning it. *)
Definition unowned_world (m : mutex.t) : world mutex.t :=
  World {[ lock_L := m ]} {[ guard_G := UniqueLock (Some lock_L) false ]} [].

(** [mutex L, K; unique_lock<mutex> G(L), H(K);] run by [thread_1]. *)
Definition two_guards : world mutex.t :=
  World {[ lock_L := mutex_of_thread_1; lock_K := mutex_of_thread_1 ]}
        {[ guard_G := UniqueLock (Some lock_L) true;
           guard_H := UniqueLock (Some lock_K) true ]}
        [EvLock lock_L; EvLock lock_K].

(** [unique_lock<mutex> G(L); L.unlock();] run by [thread_1], and the world
    it leaves: [G] still counts itself the owner of a lock nobody holds. *)
Definition release_by_hand (cfg : config) : Mon (world mutex.t) unit :=
  unique_lock.ctor cfg thread_1 guard_G lock_L ;;
  call (Some lock_L) EvUnlock (mutex.unlock cfg thread_1).

Definition stale_owner_world : world mutex.t :=
  World {[ lock_L := fresh_mutex ]}
        {[ guard_G := UniqueLock (Some lock_L) true ]}
        [EvLock lock_L; EvUnlock lock_L].

(** [unique_lock<mutex> G; G.unlock();] *)
Definition unlock_never_locked (cfg : config) : Mon (world mutex.t) unit :=
  unique_lock.default_ctor cfg guard_G ;;
  unique_lock.unlock cfg thread_1 guard_G.

(** [unique_lock<mutex> G(L); G.unlock(); L.lock();] *)
Definition relock_by_hand (cfg : config) : Mon (world mutex.t) unit :=
  unique_lock.ctor cfg thread_1 guard_G lock_L ;;
  unique_lock.unlock cfg thread_1 guard_G ;;
  call (Some lock_L) EvLock (mutex.lock cfg thread_1).

(** ** Vocabulary of the further properties *)

(** The three errors of [mutex]. *)
Definition create_failed : exn :=
  runtime_error "Failed to create mutex at khmz::mutex::mutex".

Definition lock_failed : exn :=
  runtime_error "Failed to lock mutex at khmz::mutex::lock".

Definition release_failed : exn :=
  runtime_error "Failed to release mutex at khmz::mutex::unlock".

(** A [mutex] whose handle is [NULL]. *)
Definition null_mutex : mutex.t := mutex.Mutex None.

(** A basic lock that thread [t] has acquired once. *)
Definition mutex_held_by (t : tid) : mutex.t :=
  mutex.Mutex (Some (Win32.KernelMutex (Some t) 1 false)).

(** A basic lock that a thread other than [t] owns. *)
Definition owned_by_other (m : mutex.t) (t : tid) : Prop :=
  exists o, owned_by m o /\ o <> t.

(** [T1: L.lock(); T2: L.try_lock(); T1: L.unlock(); T2: L.try_lock();]
    with the two results of [T2]. *)
Definition handover (cfg : config) (t1 t2 : tid) : Mon mutex.t (bool * bool) :=
  mutex.lock cfg t1 ;;
  b1 <- mutex.try_lock cfg t2 ;;
  mutex.unlock cfg t1 ;;
  b2 <- mutex.try_lock cfg t2 ;;
  ret (b1, b2).

(** [G.lock(); G.owns_lock(); G.unlock(); G.owns_lock();] with the two
    answers. *)
Definition lock_then_unlock {T_MUTEX : Type} `{!Lockable T_MUTEX}
    (cfg : config) (t : tid) (this : loc) : Mon (world T_MUTEX) (bool * bool) :=
  unique_lock.lock cfg t this ;;
  b1 <- unique_lock.owns_lock cfg this ;;
  unique_lock.unlock cfg t this ;;
  b2 <- unique_lock.owns_lock cfg this ;;
  ret (b1, b2).

(** [T1: unique_lock<mutex> G(L); T2: H.try_lock(); T1: G.~unique_lock();
    T2: H.try_lock();] with the two results of [T2]. *)
Definition guarded_handover (cfg : config) (t1 t2 : tid) (G H L : loc)
  : Mon (world mutex.t) (bool * bool) :=
  unique_lock.ctor cfg t1 G L ;;
  b1 <- unique_lock.try_lock cfg t2 H ;;
  unique_lock.dtor cfg t1 G ;;
  b2 <- unique_lock.try_lock cfg t2 H ;;
  ret (b1, b2).

(** A specification of a computation: from a state in [P], a normal
    return with value [a] leaves a state in [Q a], an exception or a
    termination leaves one in [E], and a wait leaves one in [B]. *)
Definition hoare {St A} (P : St -> Prop) (c : Mon St A)
    (Q : A -> St -> Prop) (E B : St -> Prop) : Prop :=
  forall s, P s ->
    match c s with
    | Returned a s' => Q a s'
    | Raised _ s' | Terminated s' => E s'
    | Blocked s' => B s'
    | Undefined => True
    end.

(** A call that neither raised nor terminated the program. *)
Definition quiet {St A} (r : result St A) : Prop :=
  match r with
  | Raised _ _ | Terminated _ => False
  | _ => True
  end.

(** A lock type none of whose three member functions raises or terminates
    in the build [cfg]. *)
Definition quiet_lock_type (M : Type) `{!Lockable M} (cfg : config) : Prop :=
  forall t m,
    quiet (T_lock cfg t m) /\ quiet (T_unlock cfg t m)
    /\ quiet (T_try_lock cfg t m).

(** The member functions of [unique_lock], with their arguments. *)
Inductive member : Type :=
| Ctor (this m : loc)
| DefaultCtor (this : loc)
| MoveCtor (this other : loc)
| MoveAssign (this other : loc)
| Dtor (this : loc)
| Lock (this : loc)
| TryLock (this : loc)
| Unlock (this : loc)
| Release (this : loc)
| OwnsLock (this : loc).

(** Thread [t] calls the member function [f], dropping what it returns. *)
Definition call_member {T_MUTEX : Type} `{!Lockable T_MUTEX}
    (cfg : config) (t : tid) (f : member) : Mon (world T_MUTEX) unit :=
  match f with
  | Ctor this m => unique_lock.ctor cfg t this m
  | DefaultCtor this => unique_lock.default_ctor cfg this
  | MoveCtor this other => unique_lock.move_ctor cfg this other
  | MoveAssign this other => unique_lock.move_assign cfg t this other
  | Dtor this => unique_lock.dtor cfg t this
  | Lock this => unique_lock.lock cfg t this
  | TryLock this => unique_lock.try_lock cfg t this ;; ret tt
  | Unlock this => unique_lock.unlock cfg t this
  | Release this => unique_lock.release cfg this
  | OwnsLock this => unique_lock.owns_lock cfg this ;; ret tt
  end.

(** A sequence of member calls, each by its own thread. *)
Fixpoint run_members {T_MUTEX : Type} `{!Lockable T_MUTEX}
    (cfg : config) (prog : list (tid * member)) : Mon (world T_MUTEX) unit :=
  match prog with
  | [] => ret tt
  | (t, f) :: rest => call_member cfg t f ;; run_members cfg rest
  end.

(** A guard that, if it owns, refers to a live lock. *)
Definition sound_guard {M} (w : world M) (g : unique_lock_obj) : Prop :=
  m_owns_lock g = true ->
  exists a, m_mutex g = Some a /\ is_Some (mutexes w !! a).

(** Every guard that owns refers to a live lock. *)
Definition guards_sound {M} (w : world M) : Prop :=
  forall this g, guards w !! this = Some g -> sound_guard w g.

(** The guard at [this] is alive and refers to a live lock. *)
Definition refers_to_live {M} (this : loc) (w : world M) : Prop :=
  exists g a, guards w !! this = Some g /\ m_mutex g = Some a
              /\ is_Some (mutexes w !! a).

(** The same for every guard but the one at [x]. *)
Definition sound_except {M} (x : loc) (w : world M) : Prop :=
  forall this g, this <> x -> guards w !! this = Some g -> sound_guard w g.

(** [mutex L; unique_lock<mutex> G(L), H;] run by [thread_1]. *)
Definition guard_and_spare : world mutex.t :=
  World {[ lock_L := mutex_of_thread_1 ]}
        {[ guard_G := UniqueLock (Some lock_L) true; guard_H := detached ]}
        [EvLock lock_L].

(** [unique_lock<mutex> G(L); G.unlock(); G.lock(); G.release();
    G.~unique_lock();] run by [thread_1]. *)
Definition sample_program : list (tid * member) :=
  [(thread_1, Ctor guard_G lock_L); (thread_1, Unlock guard_G);
   (thread_1, Lock guard_G); (thread_1, Release guard_G);
   (thread_1, Dtor guard_G)].

(** * Properties *)

(** ** One step at a time *)

Section Steps.
Context {M : Type}.
Implicit Types (w : world M) (g : unique_lock_obj).

Lemma bind_Returned {St A B} (c : Mon St A) (k : A -> Mon St B) s a s' :
  c s = Returned a s' -> bind c k s = k a s'.
Proof. unfold bind. by intros ->. Qed.

Lemma load_alive w this g :
  guards w !! this = Some g -> load this w = Returned g w.
Proof. unfold load. by intros ->. Qed.

Lemma load_dead w this :
  guards w !! this = None -> load this w = Undefined.
Proof. unfold load. by intros ->. Qed.

Lemma read_m_owns_lock_alive w this g :
  guards w !! this = Some g ->
  read_m_owns_lock this w = Returned (m_owns_lock g) w.
Proof.
  intros Hg. unfold read_m_owns_lock.
  by rewrite (bind_Returned _ _ _ _ _ (load_alive _ _ _ Hg)).
Qed.

Lemma read_m_mutex_alive w this g :
  guards w !! this = Some g ->
  read_m_mutex this w = Returned (m_mutex g) w.
Proof.
  intros Hg. unfold read_m_mutex.
  by rewrite (bind_Returned _ _ _ _ _ (load_alive _ _ _ Hg)).
Qed.

Lemma write_m_owns_lock_alive w this g b :
  guards w !! this = Some g ->
  write_m_owns_lock this b w
  = Returned tt (set_guard this (UniqueLock (m_mutex g) b) w).
Proof.
  intros Hg. unfold write_m_owns_lock.
  by rewrite (bind_Returned _ _ _ _ _ (load_alive _ _ _ Hg)).
Qed.

Lemma write_m_mutex_alive w this g p :
  guards w !! this = Some g ->
  write_m_mutex this p w
  = Returned tt (set_guard this (UniqueLock p (m_owns_lock g)) w).
Proof.
  intros Hg. unfold write_m_mutex.
  by rewrite (bind_Returned _ _ _ _ _ (load_alive _ _ _ Hg)).
Qed.

Lemma call_alive {A} w a m ev (method : Mon M A) :
  mutexes w !! a = Some m ->
  call (Some a) ev method w
  = result_map (fun m' => after ev a m' w) (method m).
Proof. unfold call. by intros ->. Qed.

Lemma call_null {A} w ev (method : Mon M A) :
  call None ev method w = Undefined.
Proof. done. Qed.

Lemma arrow_alive {A} w this g a m ev (method : Mon M A) :
  guards w !! this = Some g -> m_mutex g = Some a -> mutexes w !! a = Some m ->
  arrow this ev method w
  = result_map (fun m' => after ev a m' w) (method m).
Proof.
  intros Hg Ha Hm. unfold arrow.
  rewrite (bind_Returned _ _ _ _ _ (read_m_mutex_alive _ _ _ Hg)), Ha.
  by apply call_alive.
Qed.

Lemma arrow_null {A} w this g ev (method : Mon M A) :
  guards w !! this = Some g -> m_mutex g = None ->
  arrow this ev method w = Undefined.
Proof.
  intros Hg Ha. unfold arrow.
  by rewrite (bind_Returned _ _ _ _ _ (read_m_mutex_alive _ _ _ Hg)), Ha.
Qed.

Lemma arrow_dangling {A} w this g a ev (method : Mon M A) :
  guards w !! this = Some g -> m_mutex g = Some a -> mutexes w !! a = None ->
  arrow this ev method w = Undefined.
Proof.
  intros Hg Ha Hm. unfold arrow.
  rewrite (bind_Returned _ _ _ _ _ (read_m_mutex_alive _ _ _ Hg)), Ha.
  unfold call. by rewrite Hm.
Qed.

Lemma guards_set_guard w a g :
  guards (set_guard a g w) !! a = Some g.
Proof. simpl. apply lookup_insert_eq. Qed.

Lemma guards_set_guard_ne w a b g :
  a ≠ b -> guards (set_guard a g w) !! b = guards w !! b.
Proof. intros Hne. simpl. by apply lookup_insert_ne. Qed.

Lemma set_guard_id w a g :
  guards w !! a = Some g -> set_guard a g w = w.
Proof.
  intros Hg. destruct w as [ms gs tr]. unfold set_guard. simpl in *.
  by rewrite insert_id.
Qed.

Lemma set_guard_twice w a g g' :
  set_guard a g' (set_guard a g w) = set_guard a g' w.
Proof. unfold set_guard. simpl. by rewrite insert_insert_eq. Qed.

Lemma log_grows w ev : log ev w ≠ w.
Proof.
  destruct w as [ms gs tr]. unfold log. simpl. intros [= Htr].
  apply (f_equal length) in Htr. rewrite length_app in Htr. simpl in Htr.
  lia.
Qed.

Lemma releases_app a tr1 tr2 :
  releases a (tr1 ++ tr2) = (releases a tr1 + releases a tr2)%nat.
Proof. unfold releases. by rewrite filter_app, length_app. Qed.

Lemma releases_one a : releases a [EvUnlock a] = 1%nat.
Proof.
  unfold releases. rewrite filter_cons_True by done. done.
Qed.

Lemma releases_lock a b : releases a [EvLock b] = 0%nat.
Proof.
  unfold releases. rewrite filter_cons_False by done. done.
Qed.
End Steps.

(** Run a guard's member function on a world whose lookups are known. *)
Ltac step_guard Hg :=
  first
    [ rewrite (bind_Returned _ _ _ _ _ (read_m_owns_lock_alive _ _ _ Hg))
    | rewrite (bind_Returned _ _ _ _ _ (read_m_mutex_alive _ _ _ Hg))
    | rewrite (bind_Returned _ _ _ _ _ (load_alive _ _ _ Hg))
    | rewrite (bind_Returned _ _ _ _ _ (write_m_owns_lock_alive _ _ _ _ Hg))
    | rewrite (bind_Returned _ _ _ _ _ (write_m_mutex_alive _ _ _ _ Hg))
    | rewrite (read_m_owns_lock_alive _ _ _ Hg)
    | rewrite (write_m_owns_lock_alive _ _ _ _ Hg)
    | rewrite (write_m_mutex_alive _ _ _ _ Hg) ].

(** ** unique_lock: release() *)

Section Release.
Context {T_MUTEX : Type} `{!Lockable T_MUTEX}.
Implicit Types (w : world T_MUTEX).

Lemma khmz_noexcept_Returned {St A} cfg (body : Mon St A) s a s' :
  body s = Returned a s' -> khmz_noexcept cfg body s = Returned a s'.
Proof.
  intros Hb. unfold khmz_noexcept, noexcept. destruct (cpp11 cfg); by rewrite Hb.
Qed.

(** C9: [release()] on a live guard returns, leaves exactly that guard with
    no association and no ownership, and touches neither the locks nor the
    record of calls made on them, whatever the guard's state was. *)
Theorem release_only_clears_guard cfg w this g :
  guards w !! this = Some g ->
  unique_lock.release cfg this w
  = Returned tt (set_guard this detached w)
  /\ mutexes (set_guard this detached w) = mutexes w
  /\ trace (set_guard this detached w) = trace w
  /\ guards (set_guard this detached w) !! this
     = Some detached.
Proof.
  intros Hg. split; [| split; [done | split; [done | apply guards_set_guard]]].
  unfold unique_lock.release. apply khmz_noexcept_Returned.
  step_guard Hg.
  rewrite (write_m_owns_lock_alive _ _ _ _ (guards_set_guard _ _ _)).
  simpl. by rewrite set_guard_twice.
Qed.
End Release.

(** ** unique_lock: lock(), try_lock(), unlock() *)

Section GuardOps.
Context {T_MUTEX : Type} `{!Lockable T_MUTEX}.
Context (cfg : config) (t : tid).
Implicit Types (w : world T_MUTEX) (g : unique_lock_obj).

Lemma guards_after ev a m' w : guards (after ev a m' w) = guards w.
Proof. done. Qed.

Lemma trace_after ev a m' w : trace (after ev a m' w) = trace w ++ [ev a].
Proof. done. Qed.

Lemma after_changes ev a m' w : after ev a m' w ≠ w.
Proof.
  destruct w as [ms gs tr]. unfold after, set_mutex, log. simpl. intros [= _ Htr].
  apply (f_equal length) in Htr. rewrite length_app in Htr. simpl in Htr. lia.
Qed.

(** *** unlock() *)

Lemma unlock_unowned_throwing w this g :
  throwing cfg -> guards w !! this = Some g -> m_owns_lock g = false ->
  unique_lock.unlock cfg t this w = Raised no_lock_to_release w.
Proof.
  intros Hcfg Hg Ho. unfold unique_lock.unlock.
  step_guard Hg. rewrite Ho. simpl.
  unfold bind, khmz_throw. by rewrite Hcfg.
Qed.

Lemma unlock_reaches_release w this g :
  guards w !! this = Some g ->
  (m_owns_lock g = true \/ silent cfg) ->
  unique_lock.unlock cfg t this w
  = (unique_lock.mutex_unlock cfg t this ;; write_m_owns_lock this false) w.
Proof.
  intros Hg Hcase. unfold unique_lock.unlock.
  step_guard Hg.
  destruct (m_owns_lock g) eqn:Ho; simpl; [done |].
  destruct Hcase as [? | Hs]; [done |].
  unfold khmz_throw. rewrite Hs. done.
Qed.

Lemma release_then_clear w this g a m :
  guards w !! this = Some g -> m_mutex g = Some a -> mutexes w !! a = Some m ->
  (unique_lock.mutex_unlock cfg t this ;; write_m_owns_lock this false) w
  = match T_unlock cfg t m with
    | Returned _ m' =>
        Returned tt (set_guard this (UniqueLock (Some a) false) (after EvUnlock a m' w))
    | Raised e m' => Raised e (after EvUnlock a m' w)
    | Terminated m' => Terminated (after EvUnlock a m' w)
    | Blocked m' => Blocked (after EvUnlock a m' w)
    | Undefined => Undefined
    end.
Proof.
  intros Hg Ha Hm. unfold bind at 1. unfold unique_lock.mutex_unlock.
  rewrite (arrow_alive _ _ _ _ _ _ _ Hg Ha Hm).
  destruct (T_unlock cfg t m) as [[] m' | e m' | m' | m' |]; simpl; try done.
  assert (Hg' : guards (after EvUnlock a m' w) !! this = Some g) by done.
  by rewrite (write_m_owns_lock_alive _ _ _ _ Hg'), Ha.
Qed.

Lemma release_then_clear_null w this g :
  guards w !! this = Some g -> m_mutex g = None ->
  (unique_lock.mutex_unlock cfg t this ;; write_m_owns_lock this false) w
  = Undefined.
Proof.
  intros Hg Ha. unfold bind at 1. unfold unique_lock.mutex_unlock.
  by rewrite (arrow_null _ _ _ _ _ Hg Ha).
Qed.

Lemma release_then_clear_dangling w this g a :
  guards w !! this = Some g -> m_mutex g = Some a -> mutexes w !! a = None ->
  (unique_lock.mutex_unlock cfg t this ;; write_m_owns_lock this false) w
  = Undefined.
Proof.
  intros Hg Ha Hm. unfold bind at 1. unfold unique_lock.mutex_unlock.
  by rewrite (arrow_dangling _ _ _ _ _ _ Hg Ha Hm).
Qed.

(** When [unlock()] gets as far as the lock, whatever it raises was raised
    by the lock, after the call was recorded. *)
Lemma unlock_owned_raise w this g e w' :
  guards w !! this = Some g ->
  (m_owns_lock g = true \/ silent cfg) ->
  unique_lock.unlock cfg t this w = Raised e w' ->
  w' ≠ w /\ exists m m', T_unlock cfg t m = Raised e m'.
Proof.
  intros Hg Hcase. rewrite (unlock_reaches_release _ _ _ Hg Hcase).
  destruct (m_mutex g) as [a |] eqn:Ha;
    [| by rewrite (release_then_clear_null _ _ _ Hg Ha)].
  destruct (mutexes w !! a) as [m |] eqn:Hm;
    [| by rewrite (release_then_clear_dangling _ _ _ _ Hg Ha Hm)].
  rewrite (release_then_clear _ _ _ _ _ Hg Ha Hm).
  destruct (T_unlock cfg t m) as [[] m' | e' m' | m' | m' |] eqn:Hu; try done.
  intros [= -> <-]. split; [apply after_changes | eauto].
Qed.

(** C3 (as amended): in the default configuration, [unlock()] on a live
    guard raises the "no lock to release" error exactly when the guard does
    not own its lock (given that the lock type itself never throws that
    error), and then changes nothing: the world after the error is the world
    before, so that error with an unchanged world also characterises the
    unowned guard.  On an owning guard it calls the lock's [unlock()]: when
    that call returns, the lock is in the state its release left and the
    guard no longer owns it; when that call throws, the same exception
    leaves [unlock()] and the guard still owns. *)
Theorem unlock_throwing_spec w this g :
  throwing cfg ->
  guards w !! this = Some g ->
  never_throws (T_unlock cfg t) no_lock_to_release ->
  ((exists w', unique_lock.unlock cfg t this w = Raised no_lock_to_release w')
     <-> m_owns_lock g = false)
  /\ (unique_lock.unlock cfg t this w = Raised no_lock_to_release w
        <-> m_owns_lock g = false)
  /\ (forall a m m',
        m_owns_lock g = true -> m_mutex g = Some a -> mutexes w !! a = Some m ->
        T_unlock cfg t m = Returned tt m' ->
        unique_lock.unlock cfg t this w
        = Returned tt
            (set_guard this (UniqueLock (Some a) false) (after EvUnlock a m' w))
        /\ trace (set_guard this (UniqueLock (Some a) false) (after EvUnlock a m' w))
           = trace w ++ [EvUnlock a])
  /\ (forall a m e m',
        m_owns_lock g = true -> m_mutex g = Some a -> mutexes w !! a = Some m ->
        T_unlock cfg t m = Raised e m' ->
        unique_lock.unlock cfg t this w = Raised e (after EvUnlock a m' w)
        /\ guards (after EvUnlock a m' w) !! this = Some g
        /\ trace (after EvUnlock a m' w) = trace w ++ [EvUnlock a]).
Proof.
  intros Hcfg Hg Hforeign.
  split; [split | split; [split | split]];
    [| | | | intros a m m' Ho Ha Hm Hu; split; [| done]
     | intros a m e m' Ho Ha Hm Hu; split; [| done]].
  - intros [w' Hr]. destruct (m_owns_lock g) eqn:Ho; [| done].
    destruct (unlock_owned_raise _ _ _ _ _ Hg (or_introl Ho) Hr)
      as [_ (m & m' & Hu)].
    by destruct (Hforeign _ _ _ Hu).
  - intros Ho. exists w. by apply (unlock_unowned_throwing _ _ g).
  - intros Hr. destruct (m_owns_lock g) eqn:Ho; [| done].
    by destruct (unlock_owned_raise _ _ _ _ _ Hg (or_introl Ho) Hr) as [Hne _].
  - by apply unlock_unowned_throwing.
  - rewrite (unlock_reaches_release _ _ _ Hg (or_introl Ho)).
    by rewrite (release_then_clear _ _ _ _ _ Hg Ha Hm), Hu.
  - rewrite (unlock_reaches_release _ _ _ Hg (or_introl Ho)).
    by rewrite (release_then_clear _ _ _ _ _ Hg Ha Hm), Hu.
Qed.

(** *** lock() *)

Lemma lock_owned_throwing w this g :
  throwing cfg -> guards w !! this = Some g -> m_owns_lock g = true ->
  unique_lock.lock cfg t this w = Raised already_owned_lock w.
Proof.
  intros Hcfg Hg Ho. unfold unique_lock.lock.
  step_guard Hg. rewrite Ho. simpl.
  unfold bind, khmz_throw. by rewrite Hcfg.
Qed.

Lemma acquire_then_own w this g a m :
  guards w !! this = Some g -> m_mutex g = Some a -> mutexes w !! a = Some m ->
  (unique_lock.mutex_lock cfg t this ;; write_m_owns_lock this true) w
  = match T_lock cfg t m with
    | Returned _ m' =>
        Returned tt (set_guard this (UniqueLock (Some a) true) (after EvLock a m' w))
    | Raised e m' => Raised e (after EvLock a m' w)
    | Terminated m' => Terminated (after EvLock a m' w)
    | Blocked m' => Blocked (after EvLock a m' w)
    | Undefined => Undefined
    end.
Proof.
  intros Hg Ha Hm. unfold bind at 1. unfold unique_lock.mutex_lock.
  rewrite (arrow_alive _ _ _ _ _ _ _ Hg Ha Hm).
  destruct (T_lock cfg t m) as [[] m' | e m' | m' | m' |]; simpl; try done.
  assert (Hg' : guards (after EvLock a m' w) !! this = Some g) by done.
  by rewrite (write_m_owns_lock_alive _ _ _ _ Hg'), Ha.
Qed.

Lemma lock_unowned_throwing w this g a m :
  throwing cfg -> guards w !! this = Some g -> m_owns_lock g = false ->
  m_mutex g = Some a -> mutexes w !! a = Some m ->
  unique_lock.lock cfg t this w
  = match T_lock cfg t m with
    | Returned _ m' =>
        Returned tt (set_guard this (UniqueLock (Some a) true) (after EvLock a m' w))
    | Raised e m' => Raised e (after EvLock a m' w)
    | Terminated m' => Terminated (after EvLock a m' w)
    | Blocked m' => Blocked (after EvLock a m' w)
    | Undefined => Undefined
    end.
Proof.
  intros Hcfg Hg Ho Ha Hm. unfold unique_lock.lock.
  step_guard Hg. rewrite Ho. simpl.
  rewrite (bind_Returned _ _ w tt w) by done.
  rewrite Hcfg. unfold try_catch.
  rewrite (acquire_then_own _ _ _ _ _ Hg Ha Hm).
  destruct (T_lock cfg t m) as [[] m' | e m' | m' | m' |]; try done.
  assert (Hg' : guards (after EvLock a m' w) !! this = Some g) by done.
  rewrite (bind_Returned _ _ _ _ _ (write_m_owns_lock_alive _ _ _ _ Hg')).
  unfold throw. f_equal. apply set_guard_id.
  rewrite Hg'. f_equal. destruct g; simpl in *; congruence.
Qed.

Lemma lock_unowned_throwing_raise w this g e w' :
  throwing cfg -> guards w !! this = Some g -> m_owns_lock g = false ->
  unique_lock.lock cfg t this w = Raised e w' ->
  w' ≠ w /\ exists m m', T_lock cfg t m = Raised e m'.
Proof.
  intros Hcfg Hg Ho.
  destruct (m_mutex g) as [a |] eqn:Ha; [destruct (mutexes w !! a) as [m |] eqn:Hm |].
  - rewrite (lock_unowned_throwing _ _ _ _ _ Hcfg Hg Ho Ha Hm).
    destruct (T_lock cfg t m) as [[] m' | e' m' | m' | m' |] eqn:Hl; try done.
    intros [= -> <-]. split; [apply after_changes | eauto].
  - unfold unique_lock.lock. step_guard Hg. rewrite Ho. simpl.
    rewrite (bind_Returned _ _ w tt w) by done.
    rewrite Hcfg. unfold try_catch, bind at 1, unique_lock.mutex_lock.
    by rewrite (arrow_dangling _ _ _ _ _ _ Hg Ha Hm).
  - unfold unique_lock.lock. step_guard Hg. rewrite Ho. simpl.
    rewrite (bind_Returned _ _ w tt w) by done.
    rewrite Hcfg. unfold try_catch, bind at 1, unique_lock.mutex_lock.
    by rewrite (arrow_null _ _ _ _ _ Hg Ha).
Qed.

(** C2: in the default configuration, [lock()] on a live guard raises the
    "already owned" error exactly when the guard owns its lock (given that
    the lock type itself never throws that error), and then nothing was
    acquired: the world, with its record of calls, is unchanged, and that
    error with an unchanged world also characterises the owning guard.
    When the guard is unowned and the lock's blocking [lock()] throws, the
    same exception leaves [lock()], and the guard is as before: unowned. *)
Theorem lock_throwing_spec w this g :
  throwing cfg ->
  guards w !! this = Some g ->
  never_throws (T_lock cfg t) already_owned_lock ->
  ((exists w', unique_lock.lock cfg t this w = Raised already_owned_lock w')
     <-> m_owns_lock g = true)
  /\ (unique_lock.lock cfg t this w = Raised already_owned_lock w
        <-> m_owns_lock g = true)
  /\ (forall a m e m',
        m_owns_lock g = false -> m_mutex g = Some a -> mutexes w !! a = Some m ->
        T_lock cfg t m = Raised e m' ->
        unique_lock.lock cfg t this w = Raised e (after EvLock a m' w)
        /\ guards (after EvLock a m' w) !! this = Some g).
Proof.
  intros Hcfg Hg Hforeign.
  split; [split | split; [split |]];
    [| | | | intros a m e m' Ho Ha Hm Hl; split; [| done]].
  - intros [w' Hr]. destruct (m_owns_lock g) eqn:Ho; [done |].
    destruct (lock_unowned_throwing_raise _ _ _ _ _ Hcfg Hg Ho Hr)
      as [_ (m & m' & Hl)].
    by destruct (Hforeign _ _ _ Hl).
  - intros Ho. exists w. by apply (lock_owned_throwing _ _ g).
  - intros Hr. destruct (m_owns_lock g) eqn:Ho; [done |].
    by destruct (lock_unowned_throwing_raise _ _ _ _ _ Hcfg Hg Ho Hr) as [Hne _].
  - by apply lock_owned_throwing.
  - by rewrite (lock_unowned_throwing _ _ _ _ _ Hcfg Hg Ho Ha Hm), Hl.
Qed.

(** *** try_lock() *)

Lemma try_lock_owned_throwing w this g :
  throwing cfg -> guards w !! this = Some g -> m_owns_lock g = true ->
  unique_lock.try_lock cfg t this w = Raised already_owned_try_lock w.
Proof.
  intros Hcfg Hg Ho. unfold unique_lock.try_lock.
  step_guard Hg. rewrite Ho. simpl.
  unfold bind, khmz_throw. by rewrite Hcfg.
Qed.

Lemma try_lock_reaches_attempt w this g :
  guards w !! this = Some g ->
  (m_owns_lock g = false \/ silent cfg) ->
  unique_lock.try_lock cfg t this w
  = (b <- unique_lock.mutex_try_lock cfg t this ;;
     write_m_owns_lock this b ;;
     read_m_owns_lock this) w.
Proof.
  intros Hg Hcase. unfold unique_lock.try_lock.
  step_guard Hg.
  destruct (m_owns_lock g) eqn:Ho; simpl; [| done].
  destruct Hcase as [? | Hs]; [done |].
  unfold khmz_throw. rewrite Hs. done.
Qed.

Lemma attempt_then_record w this g a m :
  guards w !! this = Some g -> m_mutex g = Some a -> mutexes w !! a = Some m ->
  (b <- unique_lock.mutex_try_lock cfg t this ;;
   write_m_owns_lock this b ;;
   read_m_owns_lock this) w
  = match T_try_lock cfg t m with
    | Returned b m' =>
        Returned b (set_guard this (UniqueLock (Some a) b) (after EvTryLock a m' w))
    | Raised e m' => Raised e (after EvTryLock a m' w)
    | Terminated m' => Terminated (after EvTryLock a m' w)
    | Blocked m' => Blocked (after EvTryLock a m' w)
    | Undefined => Undefined
    end.
Proof.
  intros Hg Ha Hm. unfold bind at 1. unfold unique_lock.mutex_try_lock.
  rewrite (arrow_alive _ _ _ _ _ _ _ Hg Ha Hm).
  destruct (T_try_lock cfg t m) as [b m' | e m' | m' | m' |]; simpl; try done.
  assert (Hg' : guards (after EvTryLock a m' w) !! this = Some g) by done.
  rewrite (bind_Returned _ _ _ _ _ (write_m_owns_lock_alive _ _ _ _ Hg')).
  by rewrite (read_m_owns_lock_alive _ _ _ (guards_set_guard _ _ _)), Ha.
Qed.

(** C4: in the default configuration, [try_lock()] on a live guard that
    owns its lock raises the "already owned" error and changes nothing.
    On an unowned guard it calls the associated lock's [try_lock()] once;
    when that returns [b], the guard's ownership flag becomes [b] (true
    exactly when the attempt succeeded), the lock is in the state the
    attempt left, and [try_lock()] returns the resulting flag. *)
Theorem try_lock_throwing_spec w this g :
  throwing cfg ->
  guards w !! this = Some g ->
  (m_owns_lock g = true ->
     unique_lock.try_lock cfg t this w = Raised already_owned_try_lock w)
  /\ (forall a m b m',
        m_owns_lock g = false -> m_mutex g = Some a -> mutexes w !! a = Some m ->
        T_try_lock cfg t m = Returned b m' ->
        exists w' g',
          unique_lock.try_lock cfg t this w = Returned (m_owns_lock g') w'
          /\ guards w' !! this = Some g'
          /\ m_owns_lock g' = b
          /\ m_mutex g' = Some a
          /\ mutexes w' !! a = Some m'
          /\ trace w' = trace w ++ [EvTryLock a]).
Proof.
  intros Hcfg Hg. split.
  - by apply try_lock_owned_throwing.
  - intros a m b m' Ho Ha Hm Htry.
    exists (set_guard this (UniqueLock (Some a) b) (after EvTryLock a m' w)),
      (UniqueLock (Some a) b).
    rewrite (try_lock_reaches_attempt _ _ _ Hg (or_introl Ho)).
    rewrite (attempt_then_record _ _ _ _ _ Hg Ha Hm), Htry.
    split; [done |]. split; [apply guards_set_guard |].
    split; [done |]. split; [done |].
    split; [| done]. simpl. apply lookup_insert_eq.
Qed.

(** *** No null check *)

Lemma lock_reaches_acquire w this g :
  guards w !! this = Some g ->
  (m_owns_lock g = false \/ silent cfg) ->
  unique_lock.lock cfg t this w
  = (if KHMZ_DISABLE_THROW cfg
     then unique_lock.mutex_lock cfg t this ;; write_m_owns_lock this true
     else try_catch
            (unique_lock.mutex_lock cfg t this ;; write_m_owns_lock this true)
            (fun e => write_m_owns_lock this false ;; throw e)) w.
Proof.
  intros Hg Hcase. unfold unique_lock.lock.
  step_guard Hg.
  destruct (m_owns_lock g) eqn:Ho; simpl; [| done].
  destruct Hcase as [? | Hs]; [done |].
  unfold khmz_throw. rewrite Hs. done.
Qed.

Lemma lock_null w this g :
  guards w !! this = Some g -> m_mutex g = None ->
  unique_lock.lock cfg t this w
  = if m_owns_lock g && negb (KHMZ_DISABLE_THROW cfg)
    then Raised already_owned_lock w else Undefined.
Proof.
  intros Hg Ha.
  destruct (m_owns_lock g) eqn:Ho, (KHMZ_DISABLE_THROW cfg) eqn:Hcfg; simpl.
  - rewrite (lock_reaches_acquire _ _ _ Hg (or_intror Hcfg)), Hcfg.
    unfold bind at 1, unique_lock.mutex_lock.
    by rewrite (arrow_null _ _ _ _ _ Hg Ha).
  - by apply (lock_owned_throwing _ _ g).
  - rewrite (lock_reaches_acquire _ _ _ Hg (or_introl Ho)), Hcfg.
    unfold bind at 1, unique_lock.mutex_lock.
    by rewrite (arrow_null _ _ _ _ _ Hg Ha).
  - rewrite (lock_reaches_acquire _ _ _ Hg (or_introl Ho)), Hcfg.
    unfold try_catch, bind at 1, unique_lock.mutex_lock.
    by rewrite (arrow_null _ _ _ _ _ Hg Ha).
Qed.

Lemma try_lock_null w this g :
  guards w !! this = Some g -> m_mutex g = None ->
  unique_lock.try_lock cfg t this w
  = if m_owns_lock g && negb (KHMZ_DISABLE_THROW cfg)
    then Raised already_owned_try_lock w else Undefined.
Proof.
  intros Hg Ha.
  assert (Hnull : (b <- unique_lock.mutex_try_lock cfg t this ;;
                   write_m_owns_lock this b ;;
                   read_m_owns_lock this) w = Undefined).
  { unfold bind at 1, unique_lock.mutex_try_lock.
    by rewrite (arrow_null _ _ _ _ _ Hg Ha). }
  destruct (m_owns_lock g) eqn:Ho, (KHMZ_DISABLE_THROW cfg) eqn:Hcfg; simpl.
  - by rewrite (try_lock_reaches_attempt _ _ _ Hg (or_intror Hcfg)).
  - by apply (try_lock_owned_throwing _ _ g).
  - by rewrite (try_lock_reaches_attempt _ _ _ Hg (or_introl Ho)).
  - by rewrite (try_lock_reaches_attempt _ _ _ Hg (or_introl Ho)).
Qed.

Lemma unlock_null w this g :
  guards w !! this = Some g -> m_mutex g = None ->
  unique_lock.unlock cfg t this w
  = if negb (m_owns_lock g) && negb (KHMZ_DISABLE_THROW cfg)
    then Raised no_lock_to_release w else Undefined.
Proof.
  intros Hg Ha.
  destruct (m_owns_lock g) eqn:Ho, (KHMZ_DISABLE_THROW cfg) eqn:Hcfg; simpl.
  - rewrite (unlock_reaches_release _ _ _ Hg (or_introl Ho)).
    by apply (release_then_clear_null _ _ g).
  - rewrite (unlock_reaches_release _ _ _ Hg (or_introl Ho)).
    by apply (release_then_clear_null _ _ g).
  - rewrite (unlock_reaches_release _ _ _ Hg (or_intror Hcfg)).
    by apply (release_then_clear_null _ _ g).
  - by apply (unlock_unowned_throwing _ _ g).
Qed.

Lemma lock_associated w this g a m :
  guards w !! this = Some g -> m_mutex g = Some a -> mutexes w !! a = Some m ->
  well_defined (T_lock cfg t m) ->
  well_defined (unique_lock.lock cfg t this w).
Proof.
  intros Hg Ha Hm Hdef. unfold well_defined in *.
  destruct (m_owns_lock g) eqn:Ho, (KHMZ_DISABLE_THROW cfg) eqn:Hcfg.
  - rewrite (lock_reaches_acquire _ _ _ Hg (or_intror Hcfg)), Hcfg.
    rewrite (acquire_then_own _ _ _ _ _ Hg Ha Hm).
    by destruct (T_lock cfg t m) as [[] ? | | | |].
  - by rewrite (lock_owned_throwing _ _ g).
  - rewrite (lock_reaches_acquire _ _ _ Hg (or_introl Ho)), Hcfg.
    rewrite (acquire_then_own _ _ _ _ _ Hg Ha Hm).
    by destruct (T_lock cfg t m) as [[] ? | | | |].
  - rewrite (lock_unowned_throwing _ _ _ _ _ Hcfg Hg Ho Ha Hm).
    by destruct (T_lock cfg t m) as [[] ? | | | |].
Qed.

Lemma try_lock_associated w this g a m :
  guards w !! this = Some g -> m_mutex g = Some a -> mutexes w !! a = Some m ->
  well_defined (T_try_lock cfg t m) ->
  well_defined (unique_lock.try_lock cfg t this w).
Proof.
  intros Hg Ha Hm Hdef. unfold well_defined in *.
  assert (Hatt : (b <- unique_lock.mutex_try_lock cfg t this ;;
                  write_m_owns_lock this b ;;
                  read_m_owns_lock this) w ≠ Undefined).
  { rewrite (attempt_then_record _ _ _ _ _ Hg Ha Hm).
    by destruct (T_try_lock cfg t m). }
  destruct (m_owns_lock g) eqn:Ho, (KHMZ_DISABLE_THROW cfg) eqn:Hcfg.
  - by rewrite (try_lock_reaches_attempt _ _ _ Hg (or_intror Hcfg)).
  - by rewrite (try_lock_owned_throwing _ _ g).
  - by rewrite (try_lock_reaches_attempt _ _ _ Hg (or_introl Ho)).
  - by rewrite (try_lock_reaches_attempt _ _ _ Hg (or_introl Ho)).
Qed.

Lemma unlock_associated w this g a m :
  guards w !! this = Some g -> m_mutex g = Some a -> mutexes w !! a = Some m ->
  well_defined (T_unlock cfg t m) ->
  well_defined (unique_lock.unlock cfg t this w).
Proof.
  intros Hg Ha Hm Hdef. unfold well_defined in *.
  assert (Hrel : (unique_lock.mutex_unlock cfg t this ;;
                  write_m_owns_lock this false) w ≠ Undefined).
  { rewrite (release_then_clear _ _ _ _ _ Hg Ha Hm).
    by destruct (T_unlock cfg t m) as [[] ? | | | |]. }
  destruct (m_owns_lock g) eqn:Ho, (KHMZ_DISABLE_THROW cfg) eqn:Hcfg.
  - by rewrite (unlock_reaches_release _ _ _ Hg (or_introl Ho)).
  - by rewrite (unlock_reaches_release _ _ _ Hg (or_introl Ho)).
  - by rewrite (unlock_reaches_release _ _ _ Hg (or_intror Hcfg)).
  - by rewrite (unlock_unowned_throwing _ _ g).
Qed.

(** C10 (as amended): none of [lock()], [try_lock()], [unlock()] has an
    error branch for a missing association, and the pointer is dereferenced
    unchecked.  On a live guard whose pointer is null, [lock()] and
    [try_lock()] are undefined unless the "already owned" check throws
    first, and [unlock()] is undefined unless the "no lock to release"
    check throws first; so on a default-constructed or released guard
    [lock()] and [try_lock()] are undefined in every configuration, and
    [unlock()] is undefined in the silent configuration but raises "no
    lock to release" in the default one.  With a pointer to a live lock,
    each of the three is well defined whenever the lock's own member
    function is. *)
Theorem association_is_unchecked w this g :
  guards w !! this = Some g ->
  (m_mutex g = None ->
     unique_lock.lock cfg t this w
     = (if m_owns_lock g && negb (KHMZ_DISABLE_THROW cfg)
        then Raised already_owned_lock w else Undefined)
     /\ unique_lock.try_lock cfg t this w
        = (if m_owns_lock g && negb (KHMZ_DISABLE_THROW cfg)
           then Raised already_owned_try_lock w else Undefined)
     /\ unique_lock.unlock cfg t this w
        = (if negb (m_owns_lock g) && negb (KHMZ_DISABLE_THROW cfg)
           then Raised no_lock_to_release w else Undefined))
  /\ (forall a m,
        m_mutex g = Some a -> mutexes w !! a = Some m ->
        (well_defined (T_lock cfg t m) ->
           well_defined (unique_lock.lock cfg t this w))
        /\ (well_defined (T_try_lock cfg t m) ->
              well_defined (unique_lock.try_lock cfg t this w))
        /\ (well_defined (T_unlock cfg t m) ->
              well_defined (unique_lock.unlock cfg t this w))).
Proof.
  intros Hg. split.
  - intros Ha. split; [| split].
    + by apply lock_null.
    + by apply try_lock_null.
    + by apply unlock_null.
  - intros a m Ha Hm. split; [| split].
    + by apply (lock_associated _ _ g a).
    + by apply (try_lock_associated _ _ g a).
    + by apply (unlock_associated _ _ g a).
Qed.
End GuardOps.

(** ** unique_lock: transfer of ownership and destruction *)

Section Move.
Context {T_MUTEX : Type} `{!Lockable T_MUTEX}.
Context (cfg : config) (t : tid).
Implicit Types (w : world T_MUTEX) (g o d : unique_lock_obj).

Lemma moved_guards w this other o :
  this ≠ other ->
  guards (moved this other o w) !! other = Some detached
  /\ guards (moved this other o w) !! this = Some o
  /\ mutexes (moved this other o w) = mutexes w
  /\ trace (moved this other o w) = trace w.
Proof.
  intros Hne. unfold moved. split; [apply guards_set_guard |].
  split; [| done].
  rewrite guards_set_guard_ne by done. apply guards_set_guard.
Qed.

Lemma transfer_fields w this other d o :
  this ≠ other ->
  guards w !! this = Some d -> guards w !! other = Some o ->
  (q <- read_m_mutex other ;;
   write_m_mutex this q ;;
   b <- read_m_owns_lock other ;;
   write_m_owns_lock this b ;;
   write_m_mutex other None ;;
   write_m_owns_lock other false) w
  = Returned tt (moved this other o w).
Proof.
  intros Hne Hd Ho.
  step_guard Ho. step_guard Hd.
  set (w1 := set_guard this _ w).
  assert (Ho1 : guards w1 !! other = Some o)
    by (subst w1; by rewrite guards_set_guard_ne).
  step_guard Ho1.
  pose proof (guards_set_guard w this (UniqueLock (m_mutex o) (m_owns_lock d)))
    as Hd1. fold w1 in Hd1.
  step_guard Hd1. simpl m_mutex.
  set (w2 := set_guard this _ w1).
  assert (Ho2 : guards w2 !! other = Some o)
    by (subst w2; by rewrite guards_set_guard_ne).
  step_guard Ho2.
  rewrite (write_m_owns_lock_alive _ _ _ _ (guards_set_guard _ _ _)).
  simpl m_mutex. rewrite set_guard_twice.
  subst w2 w1. rewrite set_guard_twice. unfold moved, detached.
  by destruct o.
Qed.

Lemma move_ctor_spec w this other o :
  this ≠ other -> guards w !! other = Some o ->
  unique_lock.move_ctor cfg this other w = Returned tt (moved this other o w).
Proof.
  intros Hne Ho. unfold unique_lock.move_ctor. apply khmz_noexcept_Returned.
  step_guard Ho. unfold init, bind at 1.
  set (w1 := set_guard this _ w).
  assert (Ho1 : guards w1 !! other = Some o)
    by (subst w1; by rewrite guards_set_guard_ne).
  step_guard Ho1.
  rewrite (write_m_owns_lock_alive _ _ _ _ (guards_set_guard _ _ _)).
  simpl m_mutex. rewrite set_guard_twice.
  subst w1. unfold moved, detached. by destruct o.
Qed.

Lemma move_assign_unowned w this other d o :
  this ≠ other ->
  guards w !! this = Some d -> guards w !! other = Some o ->
  m_owns_lock d && bool_decide (is_Some (m_mutex d)) = false ->
  unique_lock.move_assign cfg t this other w = Returned tt (moved this other o w).
Proof.
  intros Hne Hd Ho Hun. unfold unique_lock.move_assign.
  apply khmz_noexcept_Returned.
  rewrite bool_decide_eq_false_2 by done. simpl.
  step_guard Hd. step_guard Hd. rewrite Hun. simpl.
  rewrite (bind_Returned _ _ w tt w) by done.
  by apply (transfer_fields _ _ _ d).
Qed.

Lemma move_assign_owned w this other d o a m m' :
  this ≠ other ->
  guards w !! this = Some d -> guards w !! other = Some o ->
  m_owns_lock d = true -> m_mutex d = Some a -> mutexes w !! a = Some m ->
  T_unlock cfg t m = Returned tt m' ->
  unique_lock.move_assign cfg t this other w
  = Returned tt (moved this other o (after EvUnlock a m' w)).
Proof.
  intros Hne Hd Ho Hown Ha Hm Hu. unfold unique_lock.move_assign.
  apply khmz_noexcept_Returned.
  rewrite bool_decide_eq_false_2 by done. simpl.
  step_guard Hd. step_guard Hd. rewrite Hown, Ha. simpl.
  rewrite (bind_Returned _ _ w tt (after EvUnlock a m' w)).
  - by apply (transfer_fields _ _ _ d).
  - unfold unique_lock.mutex_unlock.
    by rewrite (arrow_alive _ _ _ _ _ _ _ Hd Ha Hm), Hu.
Qed.

(** Assigning a guard to itself is guarded against and does nothing. *)
Lemma move_assign_self w this :
  unique_lock.move_assign cfg t this this w = Returned tt w.
Proof.
  unfold unique_lock.move_assign. apply khmz_noexcept_Returned.
  by rewrite bool_decide_eq_true_2.
Qed.

Lemma dtor_unowned w this g :
  guards w !! this = Some g -> m_owns_lock g = false ->
  unique_lock.dtor cfg t this w = Returned tt w.
Proof.
  intros Hg Ho. unfold unique_lock.dtor. apply khmz_noexcept_Returned.
  step_guard Hg. by rewrite Ho.
Qed.

Lemma dtor_owned w this g a m m' :
  guards w !! this = Some g -> m_owns_lock g = true ->
  m_mutex g = Some a -> mutexes w !! a = Some m ->
  T_unlock cfg t m = Returned tt m' ->
  unique_lock.dtor cfg t this w = Returned tt (after EvUnlock a m' w).
Proof.
  intros Hg Ho Ha Hm Hu. unfold unique_lock.dtor. apply khmz_noexcept_Returned.
  step_guard Hg. rewrite Ho. simpl. unfold unique_lock.mutex_unlock.
  by rewrite (arrow_alive _ _ _ _ _ _ _ Hg Ha Hm), Hu.
Qed.

(** C5: where the move members exist, moving a live guard [A] into a
    different guard [B], by move construction or by move assignment, returns
    and leaves [A] with no association and no ownership and [B] with exactly
    the lock reference and ownership flag [A] had; locks and the record of
    calls are untouched, except that a move assignment to a [B] that owned
    a lock [a] first calls [a.unlock()] (stated for a release that
    returns).  Consequently, when [A] owned lock [L], destroying [B] after
    the move calls [L.unlock()] exactly once, and destroying [A] after that
    changes nothing. *)
Theorem move_transfers_ownership w A B o :
  unique_lock.has_move cfg = true ->
  A ≠ B ->
  guards w !! A = Some o ->
  unique_lock.move_ctor cfg B A w = Returned tt (moved B A o w)
  /\ (forall d,
        guards w !! B = Some d ->
        m_owns_lock d && bool_decide (is_Some (m_mutex d)) = false ->
        unique_lock.move_assign cfg t B A w = Returned tt (moved B A o w))
  /\ (forall d a m m',
        guards w !! B = Some d ->
        m_owns_lock d = true -> m_mutex d = Some a -> mutexes w !! a = Some m ->
        T_unlock cfg t m = Returned tt m' ->
        unique_lock.move_assign cfg t B A w
        = Returned tt (moved B A o (after EvUnlock a m' w))
        /\ trace (moved B A o (after EvUnlock a m' w)) = trace w ++ [EvUnlock a])
  /\ (forall w0,
        guards (moved B A o w0) !! A = Some detached
        /\ guards (moved B A o w0) !! B = Some o
        /\ mutexes (moved B A o w0) = mutexes w0
        /\ trace (moved B A o w0) = trace w0)
  /\ (forall w0 L m m',
        o = UniqueLock (Some L) true ->
        mutexes w0 !! L = Some m ->
        T_unlock cfg t m = Returned tt m' ->
        let w1 := moved B A o w0 in
        let w2 := after EvUnlock L m' w1 in
        unique_lock.dtor cfg t B w1 = Returned tt w2
        /\ trace w2 = trace w1 ++ [EvUnlock L]
        /\ releases L (trace w2) = S (releases L (trace w1))
        /\ unique_lock.dtor cfg t A w2 = Returned tt w2).
Proof.
  intros _ Hne HA. assert (Hne' : B ≠ A) by done.
  split; [by apply move_ctor_spec |].
  split; [intros d Hd Hun; by apply (move_assign_unowned _ _ _ d) |].
  split; [intros d a m m' Hd Hown Ha Hm Hu; split;
          [by apply (move_assign_owned _ _ _ d _ _ m) | done] |].
  split; [intros w0; by apply moved_guards |].
  intros w0 L m m' -> Hm Hu w1 w2.
  destruct (moved_guards w0 B A (UniqueLock (Some L) true) Hne')
    as (HgA & HgB & Hms & Htr).
  split; [| split; [done | split]].
  - apply (dtor_owned _ _ _ L m m' HgB); [done | done | | done].
    by rewrite Hms.
  - subst w2. rewrite trace_after, releases_app, releases_one. lia.
  - by apply (dtor_unowned _ _ detached).
Qed.
End Move.

(** ** lock_guard *)

Section LockGuard.
Context {T_MUTEX : Type} `{!Lockable T_MUTEX}.
Context (cfg : config) (t : tid).
Implicit Types (w : world T_MUTEX) (g : lock_guard.t).

Lemma state_of_noexcept {St A} (body : Mon St A) s :
  state_of (noexcept body s) = state_of (body s).
Proof. unfold noexcept. by destruct (body s). Qed.

Lemma state_of_khmz_noexcept {St A} (body : Mon St A) s :
  state_of (khmz_noexcept cfg body s) = state_of (body s).
Proof.
  unfold khmz_noexcept. destruct (cpp11 cfg); [apply state_of_noexcept | done].
Qed.

Lemma state_of_call {A} w a m ev (method : Mon T_MUTEX A) :
  mutexes w !! a = Some m ->
  state_of (call (Some a) ev method w)
  = (fun m' => after ev a m' w) <$> state_of (method m).
Proof.
  intros Hm. rewrite (call_alive _ _ _ _ _ Hm). by destruct (method m).
Qed.

Lemma state_of_then_pure {St A B} (c : Mon St A) (k : A -> Mon St B) s :
  (forall a s', state_of (k a s') = Some s') ->
  state_of (bind c k s) = state_of (c s).
Proof. intros Hk. unfold bind. destruct (c s); simpl; auto. Qed.

Lemma ctor_state w a m :
  mutexes w !! a = Some m ->
  state_of (lock_guard.ctor cfg t a w)
  = (fun m' => after EvLock a m' w) <$> state_of (T_lock cfg t m).
Proof.
  intros Hm. unfold lock_guard.ctor.
  rewrite state_of_khmz_noexcept. simpl lock_guard.m_mutex.
  rewrite state_of_then_pure by done. by apply state_of_call.
Qed.

Lemma ctor_Returned w a m m' :
  mutexes w !! a = Some m -> T_lock cfg t m = Returned tt m' ->
  lock_guard.ctor cfg t a w
  = Returned (lock_guard.LockGuard a) (after EvLock a m' w).
Proof.
  intros Hm Hl. unfold lock_guard.ctor. apply khmz_noexcept_Returned.
  simpl lock_guard.m_mutex.
  rewrite (bind_Returned _ _ w tt (after EvLock a m' w)); [done |].
  by rewrite (call_alive _ _ _ _ _ Hm), Hl.
Qed.

Lemma dtor_state w g m :
  mutexes w !! lock_guard.m_mutex g = Some m ->
  state_of (lock_guard.dtor cfg t g w)
  = (fun m' => after EvUnlock (lock_guard.m_mutex g) m' w)
      <$> state_of (T_unlock cfg t m).
Proof.
  intros Hm. unfold lock_guard.dtor.
  rewrite state_of_khmz_noexcept. by apply state_of_call.
Qed.

Lemma scope_exit_state {A} w a m m1 (body : Mon (world T_MUTEX) A) w2 m2 :
  mutexes w !! a = Some m -> T_lock cfg t m = Returned tt m1 ->
  exits (body (after EvLock a m1 w)) w2 ->
  mutexes w2 !! a = Some m2 ->
  state_of (lock_guard.scope cfg t a body w)
  = (fun m' => after EvUnlock a m' w2) <$> state_of (T_unlock cfg t m2).
Proof.
  intros Hm Hl Hexit Hm2. unfold lock_guard.scope.
  rewrite (bind_Returned _ _ _ _ _ (ctor_Returned _ _ _ _ Hm Hl)).
  destruct Hexit as [[x ->] | [e ->]].
  - rewrite state_of_then_pure by done.
    by apply (dtor_state w2 (lock_guard.LockGuard a)).
  - rewrite state_of_then_pure by done. rewrite state_of_noexcept.
    by apply (dtor_state w2 (lock_guard.LockGuard a)).
Qed.

Lemma guard_dtor_Returned w g m m' :
  mutexes w !! lock_guard.m_mutex g = Some m ->
  T_unlock cfg t m = Returned tt m' ->
  lock_guard.dtor cfg t g w
  = Returned tt (after EvUnlock (lock_guard.m_mutex g) m' w).
Proof.
  intros Hm Hu. unfold lock_guard.dtor. apply khmz_noexcept_Returned.
  by rewrite (call_alive _ _ _ _ _ Hm), Hu.
Qed.

(** How a guarded scope ends when the destructor's [unlock()] returns: as
    its body did. *)
Lemma scope_exit_outcome {A} w a m m1 (body : Mon (world T_MUTEX) A) w2 m2 m3 :
  mutexes w !! a = Some m -> T_lock cfg t m = Returned tt m1 ->
  mutexes w2 !! a = Some m2 -> T_unlock cfg t m2 = Returned tt m3 ->
  (forall x, body (after EvLock a m1 w) = Returned x w2 ->
     lock_guard.scope cfg t a body w = Returned x (after EvUnlock a m3 w2))
  /\ (forall e, body (after EvLock a m1 w) = Raised e w2 ->
        lock_guard.scope cfg t a body w = Raised e (after EvUnlock a m3 w2)).
Proof.
  intros Hm Hl Hm2 Hu.
  pose proof (guard_dtor_Returned w2 (lock_guard.LockGuard a) m2 m3 Hm2 Hu)
    as Hd. simpl lock_guard.m_mutex in Hd.
  split.
  - intros x Hb. unfold lock_guard.scope.
    rewrite (bind_Returned _ _ _ _ _ (ctor_Returned _ _ _ _ Hm Hl)), Hb.
    by rewrite (bind_Returned _ _ _ _ _ Hd).
  - intros e Hb. unfold lock_guard.scope.
    rewrite (bind_Returned _ _ _ _ _ (ctor_Returned _ _ _ _ Hm Hl)), Hb.
    rewrite (bind_Returned _ _ w2 tt (after EvUnlock a m3 w2)); [done |].
    unfold noexcept. by rewrite Hd.
Qed.

(** C6: constructing a [lock_guard] on a live lock calls that lock's
    blocking [lock()] exactly once, and destroying it calls [unlock()]
    exactly once, whatever the state of the guard or of the lock and
    whatever the call does (so long as the lock's own member function has a
    defined behaviour).  Hence for a scope guarded by a [lock_guard], when
    the construction returned and the body leaves by returning or by an
    exception, leaving it adds exactly one [unlock()] of the lock to what
    the body did: the guard releases the lock exactly once.  When that
    [unlock()] returns, the scope ends as its body did: it returns the
    body's value, or the body's exception propagates. *)
Theorem lock_guard_releases_once w a m :
  mutexes w !! a = Some m ->
  (forall m',
     state_of (T_lock cfg t m) = Some m' ->
     state_of (lock_guard.ctor cfg t a w) = Some (after EvLock a m' w)
     /\ trace (after EvLock a m' w) = trace w ++ [EvLock a]
     /\ releases a (trace (after EvLock a m' w)) = releases a (trace w))
  /\ (forall g w0 m0 m',
        mutexes w0 !! lock_guard.m_mutex g = Some m0 ->
        state_of (T_unlock cfg t m0) = Some m' ->
        state_of (lock_guard.dtor cfg t g w0)
        = Some (after EvUnlock (lock_guard.m_mutex g) m' w0)
        /\ trace (after EvUnlock (lock_guard.m_mutex g) m' w0)
           = trace w0 ++ [EvUnlock (lock_guard.m_mutex g)])
  /\ (forall (A : Type) (body : Mon (world T_MUTEX) A) m1 w2 m2 m3,
        T_lock cfg t m = Returned tt m1 ->
        exits (body (after EvLock a m1 w)) w2 ->
        mutexes w2 !! a = Some m2 ->
        state_of (T_unlock cfg t m2) = Some m3 ->
        state_of (lock_guard.scope cfg t a body w) = Some (after EvUnlock a m3 w2)
        /\ trace (after EvUnlock a m3 w2) = trace w2 ++ [EvUnlock a]
        /\ releases a (trace (after EvUnlock a m3 w2)) = S (releases a (trace w2)))
  /\ (forall (A : Type) (body : Mon (world T_MUTEX) A) m1 w2 m2 m3,
        T_lock cfg t m = Returned tt m1 ->
        mutexes w2 !! a = Some m2 ->
        T_unlock cfg t m2 = Returned tt m3 ->
        (forall x, body (after EvLock a m1 w) = Returned x w2 ->
           lock_guard.scope cfg t a body w = Returned x (after EvUnlock a m3 w2))
        /\ (forall e, body (after EvLock a m1 w) = Raised e w2 ->
              lock_guard.scope cfg t a body w
              = Raised e (after EvUnlock a m3 w2))).
Proof.
  intros Hm. split; [| split; [| split]].
  - intros m' Hl. rewrite (ctor_state _ _ _ Hm), Hl.
    split; [done |]. split; [done |].
    rewrite trace_after, releases_app, releases_lock. lia.
  - intros g w0 m0 m' Hm0 Hu. by rewrite (dtor_state _ _ _ Hm0), Hu.
  - intros A body m1 w2 m2 m3 Hl Hexit Hm2 Hu.
    rewrite (scope_exit_state _ _ _ _ _ _ _ Hm Hl Hexit Hm2), Hu.
    split; [done |]. split; [done |].
    rewrite trace_after, releases_app, releases_one. lia.
  - intros A body m1 w2 m2 m3 Hl Hm2 Hu.
    by apply (scope_exit_outcome _ _ m m1 _ _ m2).
Qed.
End LockGuard.

(** ** The two lock types *)

Section Locks.
Context (cfg : config).
Implicit Types (t o : tid).

Lemma khmz_noexcept_id {St A} (body : Mon St A) s :
  (forall e s', body s <> Raised e s') -> khmz_noexcept cfg body s = body s.
Proof.
  intros Hno. unfold khmz_noexcept, noexcept.
  destruct (cpp11 cfg); [| done]. destruct (body s) eqn:Hb; try done.
  by destruct (Hno e s0).
Qed.

(** *** mutex *)

Lemma mutex_try_lock_eq t m :
  mutex.try_lock cfg t m
  = match Win32.WaitForSingleObject t (mutex.m_hMutex m) 0 with
    | Win32.WaitBlocks => Blocked m
    | Win32.WaitReturns dwWaitResult h =>
        Returned (dwWaitResult =? Win32.WAIT_OBJECT_0) (mutex.Mutex h)
    end.
Proof.
  unfold mutex.try_lock. apply khmz_noexcept_id. intros e s'.
  by destruct (Win32.WaitForSingleObject t (mutex.m_hMutex m) 0).
Qed.

Lemma mutex_lock_never_throws_guard_error t :
  never_throws (mutex.lock cfg t) already_owned_lock.
Proof.
  intros m e m'. unfold mutex.lock, when, khmz_throw, throw, ret.
  destruct (Win32.WaitForSingleObject t (mutex.m_hMutex m) Win32.INFINITE);
    [| done].
  destruct (negb (code =? Win32.WAIT_OBJECT_0)); [| done].
  destruct (KHMZ_DISABLE_THROW cfg); [done |]. by intros [= <- _].
Qed.

Lemma mutex_unlock_never_throws_guard_error t :
  never_throws (mutex.unlock cfg t) no_lock_to_release.
Proof.
  intros m e m'. unfold mutex.unlock, when, khmz_throw, throw, ret.
  destruct (Win32.ReleaseMutex t (mutex.m_hMutex m)) as [ok h].
  destruct (ok =? 0); [| done].
  destruct (KHMZ_DISABLE_THROW cfg); [done |]. by intros [= <- _].
Qed.

(** A release by a thread that does not own the lock fails, and the silent
    build swallows the failure: nothing changes. *)
Lemma mutex_unlock_silent_not_owner t m :
  silent cfg -> ~ owned_by m t -> mutex.unlock cfg t m = Returned tt m.
Proof.
  intros Hs Hno. unfold mutex.unlock, when, khmz_throw. rewrite Hs.
  destruct m as [[[[o |] n ab] |]]; simpl; try done.
  destruct (decide (o = t)) as [-> | Hne]; simpl; [| done].
  destruct Hno. by eexists.
Qed.

(** C8: [mutex::try_lock()] always returns a boolean: it never throws,
    never terminates the program and never waits.  On a lock that another
    thread owns it returns false and leaves the lock exactly as it was; on an
    available lock it returns true and the caller is the owner afterwards. *)
Theorem mutex_try_lock_spec t m :
  (exists b m', mutex.try_lock cfg t m = Returned b m')
  /\ (forall o, owned_by m o -> o <> t ->
        mutex.try_lock cfg t m = Returned false m)
  /\ (available m ->
        exists m', mutex.try_lock cfg t m = Returned true m' /\ owned_by m' t).
Proof.
  rewrite mutex_try_lock_eq. destruct m as [[k |]]; simpl.
  - destruct k as [[o |] n ab]; simpl.
    + destruct (decide (o = t)) as [-> | Hne]; simpl.
      * split; [eauto |]. split.
        -- intros o (k & [= <-] & [= <-]); done.
        -- intros (k & [= <-] & Hown & _); done.
      * split; [eauto |]. split; [done |].
        intros (k & [= <-] & Hown & _); done.
    + destruct ab; simpl.
      * split; [eauto |]. split.
        -- intros o (k & [= <-] & Hown); done.
        -- intros (k & [= <-] & _ & Hab); done.
      * split; [eauto |]. split.
        -- intros o (k & [= <-] & Hown); done.
        -- intros _. eexists. split; [done |]. by eexists.
  - split; [eauto |]. split.
    + intros o (k & Hk & _); done.
    + intros (k & Hk & _); done.
Qed.

(** *** recursive_mutex *)

Lemma recursive_lock_eq t rm :
  recursive_mutex.lock cfg t rm
  = match Win32.EnterCriticalSection t (recursive_mutex.m_cs rm) with
    | Some cs => Returned tt (recursive_mutex.RecursiveMutex cs)
    | None => Blocked rm
    end.
Proof.
  unfold recursive_mutex.lock. apply khmz_noexcept_id. intros e s'.
  by destruct (Win32.EnterCriticalSection t (recursive_mutex.m_cs rm)).
Qed.

Lemma recursive_unlock_eq t rm :
  recursive_mutex.unlock cfg t rm
  = match Win32.LeaveCriticalSection t (recursive_mutex.m_cs rm) with
    | Some cs => Returned tt (recursive_mutex.RecursiveMutex cs)
    | None => Undefined
    end.
Proof.
  unfold recursive_mutex.unlock. apply khmz_noexcept_id. intros e s'.
  by destruct (Win32.LeaveCriticalSection t (recursive_mutex.m_cs rm)).
Qed.

Lemma recursive_try_lock_eq t rm :
  recursive_mutex.try_lock cfg t rm
  = let '(r, cs) := Win32.TryEnterCriticalSection t (recursive_mutex.m_cs rm) in
    Returned (negb (r =? 0)) (recursive_mutex.RecursiveMutex cs).
Proof.
  unfold recursive_mutex.try_lock. apply khmz_noexcept_id. intros e s'.
  by destruct (Win32.TryEnterCriticalSection t (recursive_mutex.m_cs rm)).
Qed.

Lemma recursive_mutex_never_throws t e :
  never_throws (recursive_mutex.lock cfg t) e
  /\ never_throws (recursive_mutex.unlock cfg t) e.
Proof.
  split; intros rm e' rm'.
  - rewrite recursive_lock_eq.
    by destruct (Win32.EnterCriticalSection t (recursive_mutex.m_cs rm)).
  - rewrite recursive_unlock_eq.
    by destruct (Win32.LeaveCriticalSection t (recursive_mutex.m_cs rm)).
Qed.

Lemma times_snoc {St} (n : nat) (c : Mon St unit) s :
  times (n + 1) c s = (times n c ;; c) s.
Proof.
  revert s. induction n as [| n IH]; intros s.
  - simpl. unfold bind, ret. by destruct (c s) as [[] ? | | | |].
  - cbn [times Nat.add]. unfold bind. by destruct (c s).
Qed.

(** The section as its owner [t] sees it after [n] acquisitions. *)
Lemma held_lock t c :
  recursive_mutex.lock cfg t (held t c) = Returned tt (held t (c + 1)).
Proof.
  rewrite recursive_lock_eq. unfold held, Win32.EnterCriticalSection. simpl.
  by rewrite decide_True.
Qed.

Lemma held_unlock t c :
  recursive_mutex.unlock cfg t (held t c)
  = Returned tt (if c - 1 =? 0 then recursive_mutex.ctor else held t (c - 1)).
Proof.
  rewrite recursive_unlock_eq. unfold held, Win32.LeaveCriticalSection. simpl.
  rewrite decide_True by done. by destruct (c - 1 =? 0).
Qed.

Lemma times_lock_held t n c :
  times n (recursive_mutex.lock cfg t) (held t c)
  = Returned tt (held t (c + Z.of_nat n)).
Proof.
  revert c. induction n as [| n IH]; intros c.
  - simpl. unfold ret. by rewrite Z.add_0_r.
  - cbn [times]. rewrite (bind_Returned _ _ _ _ _ (held_lock t c)), IH.
    do 2 f_equal. lia.
Qed.

Lemma times_lock_free t n rm :
  Win32.OwningThread (recursive_mutex.m_cs rm) = None ->
  times (S n) (recursive_mutex.lock cfg t) rm
  = Returned tt (held t (Z.of_nat (S n))).
Proof.
  intros Hfree. cbn [times].
  rewrite (bind_Returned _ _ rm tt (held t 1)).
  - rewrite times_lock_held. do 2 f_equal. lia.
  - rewrite recursive_lock_eq. unfold Win32.EnterCriticalSection.
    by rewrite Hfree.
Qed.

Lemma times_unlock_held t j c :
  (Z.of_nat j < c) ->
  times j (recursive_mutex.unlock cfg t) (held t c)
  = Returned tt (held t (c - Z.of_nat j)).
Proof.
  revert c. induction j as [| j IH]; intros c Hlt.
  - simpl. unfold ret. by rewrite Z.sub_0_r.
  - cbn [times]. rewrite (bind_Returned _ _ _ _ _ (held_unlock t c)).
    destruct (c - 1 =? 0) eqn:Hz; [lia |].
    rewrite IH by lia. do 2 f_equal. lia.
Qed.

Lemma times_unlock_all t j :
  times (S j) (recursive_mutex.unlock cfg t) (held t (Z.of_nat (S j)))
  = Returned tt recursive_mutex.ctor.
Proof.
  replace (S j) with (j + 1)%nat at 1 by lia.
  rewrite times_snoc.
  assert (Hlt : Z.of_nat j < Z.of_nat (S j)) by lia.
  rewrite (bind_Returned _ _ _ _ _ (times_unlock_held t j _ Hlt)).
  rewrite held_unlock.
  replace (Z.of_nat (S j) - Z.of_nat j - 1 =? 0) with true
    by (symmetry; apply Z.eqb_eq; lia).
  done.
Qed.

Lemma held_excludes t t' c :
  t <> t' ->
  recursive_mutex.try_lock cfg t' (held t c) = Returned false (held t c)
  /\ recursive_mutex.lock cfg t' (held t c) = Blocked (held t c).
Proof.
  intros Hne. rewrite recursive_try_lock_eq, recursive_lock_eq.
  unfold held, Win32.TryEnterCriticalSection, Win32.EnterCriticalSection. simpl.
  by rewrite decide_False.
Qed.

(** C7: a thread [t] that acquired an available recursive lock [k] times in
    a row ([k] nested acquires, [k >= 1]) and then released it [j <= k]
    times has had every call return.  While [j < k] the lock is unavailable
    to any other thread [t']: its [try_lock()] returns false, its [lock()]
    waits, and neither changes the lock.  When [j = k] the lock is available
    to [t']: its [try_lock()] returns true and its [lock()] returns, making
    [t'] the owner. *)
Theorem recursive_mutex_nested t t' (k j : nat) rm0 :
  t <> t' ->
  Win32.OwningThread (recursive_mutex.m_cs rm0) = None ->
  (1 <= k)%nat -> (j <= k)%nat ->
  exists rm,
    (times k (recursive_mutex.lock cfg t) ;;
     times j (recursive_mutex.unlock cfg t)) rm0 = Returned tt rm
    /\ ((j < k)%nat ->
          recursive_mutex.try_lock cfg t' rm = Returned false rm
          /\ recursive_mutex.lock cfg t' rm = Blocked rm)
    /\ (j = k ->
          recursive_mutex.try_lock cfg t' rm = Returned true (held t' 1)
          /\ recursive_mutex.lock cfg t' rm = Returned tt (held t' 1)).
Proof.
  intros Hne Hfree Hk Hj. destruct k as [| k]; [lia |].
  rewrite (bind_Returned _ _ _ _ _ (times_lock_free t k rm0 Hfree)).
  destruct (decide (j = S k)) as [-> | Hlt].
  - exists recursive_mutex.ctor. rewrite times_unlock_all.
    split; [done |]. split; [lia |]. intros _.
    by rewrite recursive_try_lock_eq, recursive_lock_eq.
  - exists (held t (Z.of_nat (S k) - Z.of_nat j)).
    rewrite times_unlock_held by lia.
    split; [done |]. split; [| lia]. intros _. by apply held_excludes.
Qed.
End Locks.

(** ** The silent configuration *)

(** C1 (as amended): with [KHMZ_DISABLE_THROW] defined, [unlock()] on a live
    guard that does not own its lock, and that refers to a live basic lock
    the calling thread does not own, returns without raising anything and
    leaves the program state as it was: the guards, with their association
    and ownership members, and the locks are all unchanged. *)
Theorem unlock_silent_unowned_spec cfg t (w : world mutex.t) this g a m :
  silent cfg ->
  guards w !! this = Some g ->
  m_owns_lock g = false ->
  m_mutex g = Some a ->
  mutexes w !! a = Some m ->
  ~ owned_by m t ->
  exists w',
    unique_lock.unlock cfg t this w = Returned tt w'
    /\ guards w' = guards w
    /\ mutexes w' = mutexes w.
Proof.
  intros Hs Hg Ho Ha Hm Hno.
  exists (set_guard this (UniqueLock (Some a) false) (after EvUnlock a m w)).
  rewrite (unlock_reaches_release _ _ _ _ _ Hg (or_intror Hs)).
  rewrite (release_then_clear _ _ _ _ _ _ _ Hg Ha Hm).
  change (T_unlock cfg t m) with (mutex.unlock cfg t m).
  rewrite (mutex_unlock_silent_not_owner cfg t m Hs Hno).
  split; [done |]. simpl. split.
  - apply insert_id. rewrite Hg. f_equal. destruct g; simpl in *; congruence.
  - by apply insert_id.
Qed.

(** C1 (as stated) fails: with [KHMZ_DISABLE_THROW] defined, [unlock()] on
    a guard that holds no lock still goes on to [m_mutex->unlock()].  On a
    default-constructed guard the call dereferences a null pointer.  On a
    guard that refers to a lock the calling thread holds by other means, the
    call returns and that lock has been released. *)
Lemma unlock_silent_unowned_reaches_lock :
  unlock_never_locked silent_build one_mutex = Undefined
  /\ exists w w',
      relock_by_hand silent_build one_mutex = Returned tt w
      /\ guards w !! guard_G = Some (UniqueLock (Some lock_L) false)
      /\ mutexes w !! lock_L = Some mutex_of_thread_1
      /\ unique_lock.unlock silent_build thread_1 guard_G w = Returned tt w'
      /\ guards w' !! guard_G = Some (UniqueLock (Some lock_L) false)
      /\ mutexes w' !! lock_L = Some fresh_mutex
      /\ mutexes w' <> mutexes w.
Proof.
  split; [by vm_compute |].
  eexists. eexists.
  split; [vm_compute; reflexivity |].
  split; [by vm_compute |]. split; [by vm_compute |].
  split; [vm_compute; reflexivity |].
  split; [by vm_compute |]. split; [by vm_compute |].
  intros Heq. apply (f_equal (fun ms => ms !! lock_L)) in Heq.
  vm_compute in Heq. discriminate.
Qed.

(** In the default configuration the same last call raises, and the lock
    stays with the thread. *)
Lemma unlock_throwing_unowned_keeps_lock :
  exists w,
    relock_by_hand default_build one_mutex = Returned tt w
    /\ unique_lock.unlock default_build thread_1 guard_G w
       = Raised no_lock_to_release w
    /\ mutexes w !! lock_L = Some mutex_of_thread_1.
Proof.
  eexists. split; [vm_compute; reflexivity |].
  split; by vm_compute.
Qed.

(** C10 (as stated) fails for [unlock()]: in the default configuration it is
    well defined on a default-constructed guard, which has no association;
    it raises "no lock to release" before any dereference and changes
    nothing. *)
Lemma unlock_defined_without_association :
  unique_lock.default_ctor default_build guard_G one_mutex
  = Returned tt detached_world
  /\ guards detached_world !! guard_G = Some detached
  /\ ~ associated detached
  /\ unique_lock.unlock default_build thread_1 guard_G detached_world
     = Raised no_lock_to_release detached_world
  /\ well_defined (unique_lock.unlock default_build thread_1 guard_G detached_world).
Proof.
  split; [by vm_compute |]. split; [by vm_compute |].
  split; [by intros [? [=]] |].
  split; [by vm_compute |]. by vm_compute.
Qed.

(** ** Worked instances *)

(** [unique_lock<mutex> G(L)] run by [thread_1] on a fresh lock. *)
Example owning_world_built :
  unique_lock.ctor default_build thread_1 guard_G lock_L one_mutex
  = Returned tt owning_world.
Proof. by vm_compute. Qed.

(** C9 at a guard that owns its lock: the lock stays held. *)
Lemma release_only_clears_guard_witness :
  guards owning_world !! guard_G = Some (UniqueLock (Some lock_L) true)
  /\ unique_lock.release default_build guard_G owning_world
     = Returned tt (set_guard guard_G detached owning_world)
  /\ mutexes (set_guard guard_G detached owning_world) !! lock_L
     = Some mutex_of_thread_1.
Proof.
  assert (Hg : guards owning_world !! guard_G = Some (UniqueLock (Some lock_L) true))
    by reflexivity.
  split; [exact Hg |].
  split; [exact (proj1 (@release_only_clears_guard mutex.t default_build _ _ _ Hg)) |].
  reflexivity.
Defined.

(** C2 at a guard that owns its lock, and at an unowned guard whose lock
    was abandoned, so that the blocking acquire throws. *)
Lemma lock_throwing_spec_witness :
  throwing default_build
  /\ guards owning_world !! guard_G = Some (UniqueLock (Some lock_L) true)
  /\ never_throws (mutex.lock default_build thread_1) already_owned_lock
  /\ unique_lock.lock default_build thread_1 guard_G owning_world
     = Raised already_owned_lock owning_world
  /\ exists e m',
      mutex.lock default_build thread_1 abandoned_mutex = Raised e m'
      /\ unique_lock.lock default_build thread_1 guard_G (unowned_world abandoned_mutex)
         = Raised e (after EvLock lock_L m' (unowned_world abandoned_mutex))
      /\ guards (after EvLock lock_L m' (unowned_world abandoned_mutex)) !! guard_G
         = Some (UniqueLock (Some lock_L) false).
Proof.
  assert (Hcfg : throwing default_build) by reflexivity.
  assert (Hg : guards owning_world !! guard_G = Some (UniqueLock (Some lock_L) true))
    by reflexivity.
  assert (Hf : never_throws (mutex.lock default_build thread_1) already_owned_lock)
    by exact (mutex_lock_never_throws_guard_error default_build thread_1).
  split; [exact Hcfg |]. split; [exact Hg |]. split; [exact Hf |].
  split.
  - apply (proj2 (proj1 (proj2
             (@lock_throwing_spec mutex.t mutex_Lockable default_build thread_1 owning_world _ _ Hcfg Hg Hf)))).
    reflexivity.
  - assert (Hg' : guards (unowned_world abandoned_mutex) !! guard_G
                  = Some (UniqueLock (Some lock_L) false)) by reflexivity.
    eexists. eexists. split; [vm_compute; reflexivity |].
    apply (proj2 (proj2
             (@lock_throwing_spec mutex.t mutex_Lockable default_build thread_1 (unowned_world abandoned_mutex) _ _ Hcfg Hg' Hf))
             lock_L abandoned_mutex); reflexivity.
Defined.

(** C3 (as stated) fails: in the default configuration, after
    [unique_lock<mutex> G(L); L.unlock();] the guard [G] owns, yet
    [G.unlock()] neither releases anything nor makes the guard unowned: the
    lock's [unlock()] throws, its release error leaves [G.unlock()], and
    [G] still owns. *)
Lemma unlock_keeps_ownership_when_release_throws :
  release_by_hand default_build one_mutex = Returned tt stale_owner_world
  /\ guards stale_owner_world !! guard_G = Some (UniqueLock (Some lock_L) true)
  /\ unique_lock.unlock default_build thread_1 guard_G stale_owner_world
     = Raised release_failed (after EvUnlock lock_L fresh_mutex stale_owner_world)
  /\ guards (after EvUnlock lock_L fresh_mutex stale_owner_world) !! guard_G
     = Some (UniqueLock (Some lock_L) true)
  /\ mutexes (after EvUnlock lock_L fresh_mutex stale_owner_world) !! lock_L
     = mutexes stale_owner_world !! lock_L
  /\ release_failed <> no_lock_to_release.
Proof.
  split; [by vm_compute |]. split; [by vm_compute |].
  split; [by vm_compute |]. split; [by vm_compute |].
  split; [by vm_compute | discriminate].
Qed.

(** C3 as amended, at a guard that refers to a lock without owning it, at a
    guard that owns its lock, and at a guard that owns while its thread no
    longer holds the lock. *)
Lemma unlock_throwing_spec_witness :
  throwing default_build
  /\ guards (unowned_world fresh_mutex) !! guard_G
     = Some (UniqueLock (Some lock_L) false)
  /\ never_throws (mutex.unlock default_build thread_1) no_lock_to_release
  /\ unique_lock.unlock default_build thread_1 guard_G (unowned_world fresh_mutex)
     = Raised no_lock_to_release (unowned_world fresh_mutex)
  /\ unique_lock.unlock default_build thread_1 guard_G owning_world
     = Returned tt
         (set_guard guard_G (UniqueLock (Some lock_L) false)
            (after EvUnlock lock_L fresh_mutex owning_world))
  /\ unique_lock.unlock default_build thread_1 guard_G stale_owner_world
     = Raised release_failed (after EvUnlock lock_L fresh_mutex stale_owner_world)
  /\ guards (after EvUnlock lock_L fresh_mutex stale_owner_world) !! guard_G
     = Some (UniqueLock (Some lock_L) true).
Proof.
  assert (Hcfg : throwing default_build) by reflexivity.
  assert (Hg : guards (unowned_world fresh_mutex) !! guard_G
               = Some (UniqueLock (Some lock_L) false)) by reflexivity.
  assert (Hf : never_throws (mutex.unlock default_build thread_1) no_lock_to_release)
    by exact (mutex_unlock_never_throws_guard_error default_build thread_1).
  split; [exact Hcfg |]. split; [exact Hg |]. split; [exact Hf |].
  split; [| split].
  - apply (proj2 (proj1 (proj2
             (@unlock_throwing_spec mutex.t mutex_Lockable default_build thread_1 (unowned_world fresh_mutex) _ _ Hcfg Hg Hf)))).
    reflexivity.
  - assert (Hg' : guards owning_world !! guard_G
                  = Some (UniqueLock (Some lock_L) true)) by reflexivity.
    apply (proj1 (proj2 (proj2
             (@unlock_throwing_spec mutex.t mutex_Lockable default_build thread_1 owning_world _ _ Hcfg Hg' Hf)))
             lock_L mutex_of_thread_1 fresh_mutex); reflexivity.
  - assert (Hg' : guards stale_owner_world !! guard_G
                  = Some (UniqueLock (Some lock_L) true)) by reflexivity.
    destruct (proj2 (proj2 (proj2
                (@unlock_throwing_spec mutex.t mutex_Lockable default_build
                   thread_1 stale_owner_world _ _ Hcfg Hg' Hf)))
                lock_L fresh_mutex release_failed fresh_mutex
                eq_refl eq_refl eq_refl eq_refl) as (Hr & Hstill & _).
    split; [exact Hr | exact Hstill].
Defined.

(** C4 at an unowned guard on a free lock (the attempt succeeds), at an
    unowned guard whose lock [thread_1] holds (it fails for [thread_2]), and
    at a guard that owns its lock. *)
Lemma try_lock_throwing_spec_witness :
  throwing default_build
  /\ guards (unowned_world fresh_mutex) !! guard_G
     = Some (UniqueLock (Some lock_L) false)
  /\ (exists w' g',
        unique_lock.try_lock default_build thread_1 guard_G (unowned_world fresh_mutex)
        = Returned (m_owns_lock g') w'
        /\ guards w' !! guard_G = Some g'
        /\ m_owns_lock g' = true
        /\ m_mutex g' = Some lock_L
        /\ mutexes w' !! lock_L = Some mutex_of_thread_1
        /\ trace w' = trace (unowned_world fresh_mutex) ++ [EvTryLock lock_L])
  /\ (exists w' g',
        unique_lock.try_lock default_build thread_2 guard_G
          (unowned_world mutex_of_thread_1)
        = Returned (m_owns_lock g') w'
        /\ guards w' !! guard_G = Some g'
        /\ m_owns_lock g' = false
        /\ m_mutex g' = Some lock_L
        /\ mutexes w' !! lock_L = Some mutex_of_thread_1
        /\ trace w' = trace (unowned_world mutex_of_thread_1) ++ [EvTryLock lock_L])
  /\ unique_lock.try_lock default_build thread_1 guard_G owning_world
     = Raised already_owned_try_lock owning_world.
Proof.
  assert (Hcfg : throwing default_build) by reflexivity.
  assert (Hg : guards (unowned_world fresh_mutex) !! guard_G
               = Some (UniqueLock (Some lock_L) false)) by reflexivity.
  split; [exact Hcfg |]. split; [exact Hg |]. split; [| split].
  - apply (proj2 (@try_lock_throwing_spec mutex.t mutex_Lockable default_build thread_1 _ _ _ Hcfg Hg)
             lock_L fresh_mutex true mutex_of_thread_1); reflexivity.
  - assert (Hg' : guards (unowned_world mutex_of_thread_1) !! guard_G
                  = Some (UniqueLock (Some lock_L) false)) by reflexivity.
    apply (proj2 (@try_lock_throwing_spec mutex.t mutex_Lockable default_build thread_2 _ _ _ Hcfg Hg')
             lock_L mutex_of_thread_1 false mutex_of_thread_1); reflexivity.
  - assert (Hg' : guards owning_world !! guard_G
                  = Some (UniqueLock (Some lock_L) true)) by reflexivity.
    apply (proj1 (@try_lock_throwing_spec mutex.t mutex_Lockable default_build thread_1 _ _ _ Hcfg Hg')).
    reflexivity.
Defined.

(** C10 as amended, at a default-constructed guard in both builds, and at
    a guard that refers to a live lock. *)
Lemma association_is_unchecked_witness :
  guards detached_world !! guard_G = Some detached
  /\ unique_lock.lock default_build thread_1 guard_G detached_world = Undefined
  /\ unique_lock.try_lock default_build thread_1 guard_G detached_world = Undefined
  /\ unique_lock.unlock default_build thread_1 guard_G detached_world
     = Raised no_lock_to_release detached_world
  /\ unique_lock.lock silent_build thread_1 guard_G detached_world = Undefined
  /\ unique_lock.try_lock silent_build thread_1 guard_G detached_world = Undefined
  /\ unique_lock.unlock silent_build thread_1 guard_G detached_world = Undefined
  /\ well_defined
       (unique_lock.lock default_build thread_1 guard_G (unowned_world fresh_mutex)).
Proof.
  assert (Hg : guards detached_world !! guard_G = Some detached) by reflexivity.
  split; [exact Hg |].
  destruct (proj1 (@association_is_unchecked mutex.t mutex_Lockable default_build thread_1 _ _ _ Hg)
              eq_refl) as (Hl & Ht & Hu).
  destruct (proj1 (@association_is_unchecked mutex.t mutex_Lockable silent_build thread_1 _ _ _ Hg)
              eq_refl) as (Hl' & Ht' & Hu').
  split; [exact Hl |]. split; [exact Ht |]. split; [exact Hu |].
  split; [exact Hl' |]. split; [exact Ht' |]. split; [exact Hu' |].
  assert (Hg' : guards (unowned_world fresh_mutex) !! guard_G
                = Some (UniqueLock (Some lock_L) false)) by reflexivity.
  apply (proj1 (proj2 (@association_is_unchecked mutex.t mutex_Lockable default_build thread_1 _ _ _ Hg')
                 lock_L fresh_mutex eq_refl eq_refl)).
  by vm_compute.
Defined.

(** C5 at two owning guards: [H = std::move(G)] releases [K], which [H]
    owned, then hands [L] over; destroying [H] releases [L] once and
    destroying [G] does nothing.  Also at the move construction of [H] from
    [G]. *)
Lemma move_transfers_ownership_witness :
  unique_lock.has_move default_build = true
  /\ guard_G <> guard_H
  /\ guards two_guards !! guard_G = Some (UniqueLock (Some lock_L) true)
  /\ unique_lock.move_ctor default_build guard_H guard_G two_guards
     = Returned tt (moved guard_H guard_G (UniqueLock (Some lock_L) true) two_guards)
  /\ (let w1 := moved guard_H guard_G (UniqueLock (Some lock_L) true)
                  (after EvUnlock lock_K fresh_mutex two_guards) in
      let w2 := after EvUnlock lock_L fresh_mutex w1 in
      unique_lock.move_assign default_build thread_1 guard_H guard_G two_guards
      = Returned tt w1
      /\ guards w1 !! guard_G = Some detached
      /\ guards w1 !! guard_H = Some (UniqueLock (Some lock_L) true)
      /\ unique_lock.dtor default_build thread_1 guard_H w1 = Returned tt w2
      /\ releases lock_L (trace w2) = S (releases lock_L (trace w1))
      /\ unique_lock.dtor default_build thread_1 guard_G w2 = Returned tt w2).
Proof.
  assert (Hmv : unique_lock.has_move default_build = true) by reflexivity.
  assert (Hne : guard_G <> guard_H) by discriminate.
  assert (HG : guards two_guards !! guard_G = Some (UniqueLock (Some lock_L) true))
    by reflexivity.
  destruct (@move_transfers_ownership mutex.t mutex_Lockable default_build
              thread_1 two_guards guard_G guard_H _ Hmv Hne HG)
    as (Hctor & _ & Hassign & Hpost & Hdtor).
  split; [exact Hmv |]. split; [exact Hne |]. split; [exact HG |].
  split; [exact Hctor |].
  destruct (Hassign (UniqueLock (Some lock_K) true) lock_K mutex_of_thread_1
              fresh_mutex eq_refl eq_refl eq_refl eq_refl eq_refl)
    as [Hmove _].
  destruct (Hpost (after EvUnlock lock_K fresh_mutex two_guards))
    as (HA & HB & _ & _).
  destruct (Hdtor (after EvUnlock lock_K fresh_mutex two_guards) lock_L
              mutex_of_thread_1 fresh_mutex eq_refl eq_refl eq_refl)
    as (HdB & _ & Hrel & HdA).
  cbv zeta.
  split; [exact Hmove |]. split; [exact HA |]. split; [exact HB |].
  split; [exact HdB |]. split; [exact Hrel |]. exact HdA.
Defined.

(** C6 at a fresh lock, with a body that returns and with one that throws. *)
Lemma lock_guard_releases_once_witness :
  mutexes one_mutex !! lock_L = Some fresh_mutex
  /\ state_of (lock_guard.ctor default_build thread_1 lock_L one_mutex)
     = Some (after EvLock lock_L mutex_of_thread_1 one_mutex)
  /\ (let w1 := after EvLock lock_L mutex_of_thread_1 one_mutex in
      lock_guard.scope default_build thread_1 lock_L (ret tt) one_mutex
      = Returned tt (after EvUnlock lock_L fresh_mutex w1)
      /\ lock_guard.scope default_build thread_1 lock_L
           (throw (A := unit) (runtime_error "body")) one_mutex
         = Raised (runtime_error "body") (after EvUnlock lock_L fresh_mutex w1)
      /\ state_of (lock_guard.scope default_build thread_1 lock_L
                     (throw (A := unit) (runtime_error "body")) one_mutex)
         = Some (after EvUnlock lock_L fresh_mutex w1)
      /\ releases lock_L (trace (after EvUnlock lock_L fresh_mutex w1))
         = S (releases lock_L (trace w1))).
Proof.
  assert (Hm : mutexes one_mutex !! lock_L = Some fresh_mutex) by reflexivity.
  destruct (@lock_guard_releases_once mutex.t mutex_Lockable default_build
              thread_1 one_mutex lock_L fresh_mutex Hm)
    as (Hctor & _ & Hscope & Hexact).
  split; [exact Hm |].
  split; [exact (proj1 (Hctor mutex_of_thread_1 eq_refl)) |].
  cbv zeta.
  destruct (Hscope unit (throw (runtime_error "body")) mutex_of_thread_1
              (after EvLock lock_L mutex_of_thread_1 one_mutex)
              mutex_of_thread_1 fresh_mutex eq_refl
              (or_intror (ex_intro _ (runtime_error "body") eq_refl))
              eq_refl eq_refl)
    as (Hthrow & _ & Hrel).
  split.
  - exact (proj1 (Hexact unit (ret tt) mutex_of_thread_1
                    (after EvLock lock_L mutex_of_thread_1 one_mutex)
                    mutex_of_thread_1 fresh_mutex eq_refl eq_refl eq_refl)
             tt eq_refl).
  - split; [| split; [exact Hthrow | exact Hrel]].
    exact (proj2 (Hexact unit (throw (runtime_error "body")) mutex_of_thread_1
                    (after EvLock lock_L mutex_of_thread_1 one_mutex)
                    mutex_of_thread_1 fresh_mutex eq_refl eq_refl eq_refl)
             (runtime_error "body") eq_refl).
Defined.

(** C7 with three nested acquires: after two releases the lock is still
    closed to [thread_2], after the third it is open. *)
Lemma recursive_mutex_nested_witness :
  thread_1 <> thread_2
  /\ Win32.OwningThread (recursive_mutex.m_cs recursive_mutex.ctor) = None
  /\ (1 <= 3)%nat /\ (2 <= 3)%nat /\ (3 <= 3)%nat
  /\ (exists rm,
        (times 3 (recursive_mutex.lock default_build thread_1) ;;
         times 2 (recursive_mutex.unlock default_build thread_1))
          recursive_mutex.ctor = Returned tt rm
        /\ recursive_mutex.try_lock default_build thread_2 rm = Returned false rm
        /\ recursive_mutex.lock default_build thread_2 rm = Blocked rm)
  /\ (exists rm,
        (times 3 (recursive_mutex.lock default_build thread_1) ;;
         times 3 (recursive_mutex.unlock default_build thread_1))
          recursive_mutex.ctor = Returned tt rm
        /\ recursive_mutex.try_lock default_build thread_2 rm
           = Returned true (held thread_2 1)
        /\ recursive_mutex.lock default_build thread_2 rm
           = Returned tt (held thread_2 1)).
Proof.
  assert (Hne : thread_1 <> thread_2) by discriminate.
  assert (Hfree : Win32.OwningThread (recursive_mutex.m_cs recursive_mutex.ctor) = None)
    by reflexivity.
  assert (H1 : (1 <= 3)%nat) by lia.
  assert (H2 : (2 <= 3)%nat) by lia.
  assert (H3 : (3 <= 3)%nat) by lia.
  split; [exact Hne |]. split; [exact Hfree |].
  split; [exact H1 |]. split; [exact H2 |]. split; [exact H3 |].
  split.
  - destruct (recursive_mutex_nested default_build thread_1 thread_2 3 2
                recursive_mutex.ctor Hne Hfree H1 H2) as (rm & Hrun & Hclosed & _).
    exists rm. split; [exact Hrun |]. apply Hclosed. lia.
  - destruct (recursive_mutex_nested default_build thread_1 thread_2 3 3
                recursive_mutex.ctor Hne Hfree H1 H3) as (rm & Hrun & _ & Hopen).
    exists rm. split; [exact Hrun |]. by apply Hopen.
Defined.

(** C8 for [thread_2], on a lock [thread_1] holds and on a fresh lock. *)
Lemma mutex_try_lock_spec_witness :
  owned_by mutex_of_thread_1 thread_1
  /\ thread_1 <> thread_2
  /\ mutex.try_lock default_build thread_2 mutex_of_thread_1
     = Returned false mutex_of_thread_1
  /\ available fresh_mutex
  /\ exists m',
      mutex.try_lock default_build thread_2 fresh_mutex = Returned true m'
      /\ owned_by m' thread_2.
Proof.
  assert (Hown : owned_by mutex_of_thread_1 thread_1)
    by (eexists; split; reflexivity).
  assert (Hne : thread_1 <> thread_2) by discriminate.
  assert (Hav : available fresh_mutex)
    by (eexists; split; [reflexivity | split; reflexivity]).
  split; [exact Hown |]. split; [exact Hne |].
  split.
  - exact (proj1 (proj2 (mutex_try_lock_spec default_build thread_2
                           mutex_of_thread_1)) thread_1 Hown Hne).
  - split; [exact Hav |].
    exact (proj2 (proj2 (mutex_try_lock_spec default_build thread_2 fresh_mutex))
             Hav).
Defined.

(** C1 as amended, for [thread_2] and a guard that refers, without owning it,
    to a lock [thread_1] holds, and for [thread_1] on a free lock. *)
Lemma unlock_silent_unowned_spec_witness :
  silent silent_build
  /\ guards (unowned_world mutex_of_thread_1) !! guard_G
     = Some (UniqueLock (Some lock_L) false)
  /\ ~ owned_by mutex_of_thread_1 thread_2
  /\ ~ owned_by fresh_mutex thread_1
  /\ (exists w',
        unique_lock.unlock silent_build thread_2 guard_G
          (unowned_world mutex_of_thread_1) = Returned tt w'
        /\ guards w' = guards (unowned_world mutex_of_thread_1)
        /\ mutexes w' = mutexes (unowned_world mutex_of_thread_1))
  /\ (exists w',
        unique_lock.unlock silent_build thread_1 guard_G
          (unowned_world fresh_mutex) = Returned tt w'
        /\ guards w' = guards (unowned_world fresh_mutex)
        /\ mutexes w' = mutexes (unowned_world fresh_mutex)).
Proof.
  assert (Hs : silent silent_build) by reflexivity.
  assert (Hg : guards (unowned_world mutex_of_thread_1) !! guard_G
               = Some (UniqueLock (Some lock_L) false)) by reflexivity.
  assert (Hno : ~ owned_by mutex_of_thread_1 thread_2)
    by (intros (k & [= <-] & [=])).
  assert (Hno' : ~ owned_by fresh_mutex thread_1)
    by (intros (k & [= <-] & [=])).
  split; [exact Hs |]. split; [exact Hg |]. split; [exact Hno |].
  split; [exact Hno' |]. split.
  - exact (unlock_silent_unowned_spec silent_build thread_2
             (unowned_world mutex_of_thread_1) guard_G _ lock_L
             mutex_of_thread_1 Hs Hg eq_refl eq_refl eq_refl Hno).
  - exact (unlock_silent_unowned_spec silent_build thread_1
             (unowned_world fresh_mutex) guard_G
             (UniqueLock (Some lock_L) false) lock_L
             fresh_mutex Hs eq_refl eq_refl eq_refl eq_refl Hno').
Defined.


(** * Further properties *)

(** ** mutex *)

Section MutexMore.
Context (cfg : config).
Implicit Types (t o : tid) (m : mutex.t).

Lemma mutex_lock_eq t m :
  mutex.lock cfg t m
  = match Win32.WaitForSingleObject t (mutex.m_hMutex m) Win32.INFINITE with
    | Win32.WaitBlocks => Blocked m
    | Win32.WaitReturns code h =>
        if code =? Win32.WAIT_OBJECT_0 then Returned tt (mutex.Mutex h)
        else if KHMZ_DISABLE_THROW cfg then Returned tt (mutex.Mutex h)
        else Raised lock_failed (mutex.Mutex h)
    end.
Proof.
  unfold mutex.lock, when, khmz_throw, throw, ret.
  destruct (Win32.WaitForSingleObject t (mutex.m_hMutex m) Win32.INFINITE);
    [| done].
  destruct (code =? Win32.WAIT_OBJECT_0); simpl; [done |].
  by destruct (KHMZ_DISABLE_THROW cfg).
Qed.

Lemma mutex_unlock_eq t m :
  mutex.unlock cfg t m
  = let '(ok, h) := Win32.ReleaseMutex t (mutex.m_hMutex m) in
    if negb (ok =? 0) then Returned tt (mutex.Mutex h)
    else if KHMZ_DISABLE_THROW cfg then Returned tt (mutex.Mutex h)
    else Raised release_failed (mutex.Mutex h).
Proof.
  unfold mutex.unlock, when, khmz_throw, throw, ret.
  destruct (Win32.ReleaseMutex t (mutex.m_hMutex m)) as [ok h].
  destruct (ok =? 0); simpl; [| done].
  by destruct (KHMZ_DISABLE_THROW cfg).
Qed.

(** Every state of a basic lock, seen from thread [t]. *)
Lemma mutex_cases t m :
  m = null_mutex
  \/ (exists n, m = mutex.Mutex (Some (Win32.KernelMutex None n false)))
  \/ (exists n, m = mutex.Mutex (Some (Win32.KernelMutex None n true)))
  \/ (exists n ab, m = mutex.Mutex (Some (Win32.KernelMutex (Some t) n ab)))
  \/ (exists o n ab, o <> t
         /\ m = mutex.Mutex (Some (Win32.KernelMutex (Some o) n ab))).
Proof.
  destruct m as [[[[o |] n [|]] |]]; eauto 10;
    destruct (decide (o = t)) as [-> | Hne]; eauto 10.
Qed.

(** X1: [mutex::mutex()] builds an available lock when the OS provides the
    object.  When it does not, the default build raises the creation error,
    and the silent build returns an object with a null handle, on which
    [lock()] and [unlock()] return and [try_lock()] returns false, none of
    them making the caller the owner. *)
Theorem mutex_ctor_spec t :
  (mutex.ctor cfg true = Returned tt fresh_mutex /\ available fresh_mutex)
  /\ (throwing cfg -> mutex.ctor cfg false = Raised create_failed null_mutex)
  /\ (silent cfg ->
        mutex.ctor cfg false = Returned tt null_mutex
        /\ mutex.lock cfg t null_mutex = Returned tt null_mutex
        /\ mutex.try_lock cfg t null_mutex = Returned false null_mutex
        /\ mutex.unlock cfg t null_mutex = Returned tt null_mutex
        /\ ~ owned_by null_mutex t).
Proof.
  split; [| split].
  - split; [done |]. eexists. by split.
  - intros Hcfg. unfold mutex.ctor, when, khmz_throw. simpl. by rewrite Hcfg.
  - intros Hcfg. split; [| split; [| split; [| split]]].
    + unfold mutex.ctor, when, khmz_throw. simpl. by rewrite Hcfg.
    + rewrite mutex_lock_eq. simpl. by rewrite Hcfg.
    + by rewrite mutex_try_lock_eq.
    + rewrite mutex_unlock_eq. simpl. by rewrite Hcfg.
    + by intros (k & [=] & _).
Qed.

(** X2: in the default build [mutex::lock()] returns only as the owner.  It
    waits, changing nothing, when another thread owns the lock; it returns,
    with the caller as owner, when the lock is available; on a null handle
    or an abandoned lock it raises the acquisition error.  Whenever it
    returns, the caller owns the lock. *)
Theorem mutex_lock_default_build t m :
  throwing cfg ->
  (owned_by_other m t -> mutex.lock cfg t m = Blocked m)
  /\ (available m ->
        exists m', mutex.lock cfg t m = Returned tt m' /\ owned_by m' t)
  /\ (~ owned_by_other m t -> ~ available m -> ~ owned_by m t ->
        exists m', mutex.lock cfg t m = Raised lock_failed m')
  /\ (forall m', mutex.lock cfg t m = Returned tt m' -> owned_by m' t).
Proof.
  intros Hcfg. rewrite mutex_lock_eq, Hcfg.
  destruct (mutex_cases t m)
    as [-> | [[n ->] | [[n ->] | [(n & ab & ->) | (o & n & ab & Hne & ->)]]]];
    simpl; rewrite ?decide_True, ?decide_False by done; simpl.
  - split; [by intros (o & (k & [=] & _) & _) |].
    split; [by intros (k & [=] & _) |].
    split; [eauto | done].
  - split; [by intros (o & (k & [= <-] & [=]) & _) |].
    split; [intros _; eexists; split; [done | by eexists] |].
    split; [intros _ Hno; destruct Hno; by eexists |].
    intros m' [= <-]. by eexists.
  - split; [by intros (o & (k & [= <-] & [=]) & _) |].
    split; [by intros (k & [= <-] & _ & [=]) |].
    split; [eauto | done].
  - split; [by intros (o & (k & [= <-] & [= <-]) & Hne) |].
    split; [intros _; eexists; split; [done | by eexists] |].
    split; [intros _ _ Hno; destruct Hno; by eexists |].
    intros m' [= <-]. by eexists.
  - split; [done |].
    split; [by intros (k & [= <-] & [=] & _) |].
    split; [intros Hno; destruct Hno; exists o; split; [by eexists | done] |].
    done.
Qed.

(** X3: [mutex::unlock()] by the owner returns, and no other thread owns
    the lock afterwards.  By a thread that does not own the lock it never
    changes the lock: the default build raises the release error, the silent
    build returns as if it had succeeded. *)
Theorem mutex_unlock_spec t m :
  (owned_by m t ->
     exists m', mutex.unlock cfg t m = Returned tt m'
                /\ ~ owned_by_other m' t)
  /\ (~ owned_by m t ->
        mutex.unlock cfg t m
        = if KHMZ_DISABLE_THROW cfg then Returned tt m
          else Raised release_failed m).
Proof.
  rewrite mutex_unlock_eq.
  destruct (mutex_cases t m)
    as [-> | [[n ->] | [[n ->] | [(n & ab & ->) | (o & n & ab & Hne & ->)]]]];
    simpl; rewrite ?decide_True, ?decide_False by done; simpl.
  - split; [by intros (k & [=] & _) | done].
  - split; [by intros (k & [= <-] & [=]) | done].
  - split; [by intros (k & [= <-] & [=]) | done].
  - split; [| intros Hno; destruct Hno; by eexists].
    intros _. destruct n as [| [| n]]; simpl; eexists; (split; [done |]).
    + by intros (o & (k & [= <-] & [=]) & _).
    + by intros (o & (k & [= <-] & [=]) & _).
    + by intros (o & (k & [= <-] & [= <-]) & Hne).
  - split; [by intros (k & [= <-] & [= ->]) | done].
Qed.

(** X4: in the default build [mutex::try_lock()] succeeds exactly when
    [mutex::lock()] would return, and leaves the lock in the same state. *)
Theorem mutex_try_lock_agrees_with_lock t m m' :
  throwing cfg ->
  mutex.try_lock cfg t m = Returned true m'
  <-> mutex.lock cfg t m = Returned tt m'.
Proof.
  intros Hcfg. rewrite mutex_try_lock_eq, mutex_lock_eq, Hcfg.
  destruct (mutex_cases t m)
    as [-> | [[n ->] | [[n ->] | [(n & ab & ->) | (o & n & ab & Hne & ->)]]]];
    simpl; rewrite ?decide_True, ?decide_False by done; simpl;
    split; intros [=]; by subst.
Qed.

(** X5: from any available state, [lock()] followed by [unlock()], and a
    [try_lock()] followed by [unlock()], both by the same thread, return and
    leave the lock as a freshly constructed one; the [try_lock()] reports
    success. *)
Theorem mutex_acquire_release_round_trip t m :
  available m ->
  (mutex.lock cfg t ;; mutex.unlock cfg t) m = Returned tt fresh_mutex
  /\ (b <- mutex.try_lock cfg t ;; mutex.unlock cfg t ;; ret b) m
     = Returned true fresh_mutex.
Proof.
  intros (k & Hk & Hown & Hab). destruct m as [h]. simpl in Hk. subst h.
  destruct k as [o n ab]. simpl in *. subst o ab.
  unfold bind. rewrite mutex_lock_eq, mutex_try_lock_eq. simpl.
  rewrite mutex_unlock_eq. simpl. by rewrite decide_True.
Qed.

(** X6: mutual exclusion between two threads on an available lock: while
    [t1] holds the lock a [try_lock()] by another thread [t2] returns false,
    and once [t1] has released it the next [try_lock()] by [t2] returns true
    and [t2] is the owner. *)
Theorem mutex_handover t1 t2 m :
  t1 <> t2 ->
  available m ->
  exists m',
    handover cfg t1 t2 m = Returned (false, true) m' /\ owned_by m' t2.
Proof.
  intros Hne (k & Hk & Hown & Hab). destruct m as [h]. simpl in Hk. subst h.
  destruct k as [o n ab]. simpl in *. subst o ab.
  unfold handover, bind. rewrite mutex_lock_eq. simpl.
  rewrite mutex_try_lock_eq. simpl. rewrite decide_False by done. simpl.
  rewrite mutex_unlock_eq. simpl. rewrite decide_True by done. simpl.
  rewrite mutex_try_lock_eq. simpl.
  eexists. split; [done |]. by eexists.
Qed.
End MutexMore.

(** ** recursive_mutex *)

Section RecursiveMore.
Context (cfg : config).
Implicit Types (t : tid) (rm : recursive_mutex.t).

(** X7: nested acquisitions balance: on a freshly constructed recursive
    lock, [n] calls of [lock()] followed by [n] calls of [unlock()] by the
    same thread all return and leave the lock as constructed. *)
Theorem recursive_mutex_balanced t (n : nat) :
  (times n (recursive_mutex.lock cfg t) ;;
   times n (recursive_mutex.unlock cfg t)) recursive_mutex.ctor
  = Returned tt recursive_mutex.ctor.
Proof.
  destruct n as [| n]; [done |].
  rewrite (bind_Returned _ _ _ _ _
             (times_lock_free cfg t n recursive_mutex.ctor eq_refl)).
  apply times_unlock_all.
Qed.

(** X8: [recursive_mutex::try_lock()] is [lock()] without the wait, in
    every build: it returns true exactly when [lock()] returns, with the
    same resulting lock, and false exactly when [lock()] would wait, leaving
    the lock as it is; for the thread that already holds the lock it always
    returns true.  Neither ever raises or terminates the program. *)
Theorem recursive_try_lock_agrees_with_lock t rm :
  (forall rm', recursive_mutex.try_lock cfg t rm = Returned true rm'
               <-> recursive_mutex.lock cfg t rm = Returned tt rm')
  /\ (forall rm', recursive_mutex.try_lock cfg t rm = Returned false rm'
                  <-> recursive_mutex.lock cfg t rm = Blocked rm')
  /\ (Win32.OwningThread (recursive_mutex.m_cs rm) = Some t ->
        exists rm', recursive_mutex.try_lock cfg t rm = Returned true rm')
  /\ (exists b rm', recursive_mutex.try_lock cfg t rm = Returned b rm')
  /\ ((exists rm', recursive_mutex.lock cfg t rm = Returned tt rm')
        \/ recursive_mutex.lock cfg t rm = Blocked rm).
Proof.
  rewrite recursive_try_lock_eq, recursive_lock_eq.
  unfold Win32.TryEnterCriticalSection, Win32.EnterCriticalSection.
  destruct rm as [[[o |] c]]; simpl.
  - destruct (decide (o = t)) as [-> | Hne]; simpl.
    + split; [intros rm'; split; intros [=]; by subst |].
      split; [intros rm'; split; intros [=] |].
      split; [eauto |]. split; eauto.
    + split; [intros rm'; split; intros [=] |].
      split; [intros rm'; split; intros [=]; by subst |].
      split; [by intros [=] |]. split; eauto.
  - split; [intros rm'; split; intros [=]; by subst |].
    split; [intros rm'; split; intros [=] |].
    split; [done |]. split; eauto.
Qed.
End RecursiveMore.

(** ** Reasoning about every outcome of a call *)

Section Hoare.
Context {St : Type}.
Implicit Types (P E B : St -> Prop).

Lemma hoare_weaken {A} P P' (c : Mon St A) (Q Q' : A -> St -> Prop) E E' B B' :
  hoare P' c Q' E' B' ->
  (forall s, P s -> P' s) -> (forall a s, Q' a s -> Q a s) ->
  (forall s, E' s -> E s) -> (forall s, B' s -> B s) ->
  hoare P c Q E B.
Proof.
  intros Hc HP HQ HE HB s Hs. specialize (Hc s (HP s Hs)).
  destruct (c s); auto.
Qed.

Lemma hoare_ret {A} P (a : A) (Q : A -> St -> Prop) E B :
  (forall s, P s -> Q a s) -> hoare P (ret a) Q E B.
Proof. intros HQ s Hs. by apply HQ. Qed.

Lemma hoare_throw {A} P e (Q : A -> St -> Prop) E B :
  (forall s, P s -> E s) -> hoare P (throw e) Q E B.
Proof. intros HE s Hs. by apply HE. Qed.

Lemma hoare_bind {A C} P (c : Mon St A) (k : A -> Mon St C)
    (Q' : A -> St -> Prop) (Q : C -> St -> Prop) E B :
  hoare P c Q' E B -> (forall a, hoare (Q' a) (k a) Q E B) ->
  hoare P (bind c k) Q E B.
Proof.
  intros Hc Hk s Hs. specialize (Hc s Hs). unfold bind.
  destruct (c s); try done. by apply Hk.
Qed.

Lemma hoare_when P (c : bool) stmt (Q : unit -> St -> Prop) E B :
  (c = true -> hoare P stmt Q E B) -> (c = false -> forall s, P s -> Q tt s) ->
  hoare P (when c stmt) Q E B.
Proof.
  intros Ht Hf. destruct c; simpl; [by apply Ht |].
  apply hoare_ret. by apply Hf.
Qed.

Lemma hoare_try_catch {A} P (body : Mon St A) handler (Q : A -> St -> Prop)
    E' E B :
  hoare P body Q E' B -> (forall e, hoare E' (handler e) Q E B) ->
  (forall s, E' s -> E s) ->
  hoare P (try_catch body handler) Q E B.
Proof.
  intros Hb Hh HE s Hs. specialize (Hb s Hs). unfold try_catch.
  destruct (body s); try done; [by apply Hh | by apply HE].
Qed.

Lemma hoare_khmz_noexcept {A} cfg P (body : Mon St A) (Q : A -> St -> Prop) E B :
  hoare P body Q E B -> hoare P (khmz_noexcept cfg body) Q E B.
Proof.
  intros Hb s Hs. specialize (Hb s Hs). unfold khmz_noexcept, noexcept.
  destruct (cpp11 cfg); by destruct (body s).
Qed.

Lemma hoare_khmz_throw cfg P e (Q : unit -> St -> Prop) E B :
  (throwing cfg -> forall s, P s -> E s) ->
  (silent cfg -> forall s, P s -> Q tt s) ->
  hoare P (khmz_throw cfg e) Q E B.
Proof.
  intros Ht Hs. unfold khmz_throw, throwing, silent in *.
  destruct (KHMZ_DISABLE_THROW cfg); [by apply hoare_ret, Hs |].
  by apply hoare_throw, Ht.
Qed.

(** What holds of the state a call leaves, whatever the outcome. *)
Lemma hoare_state_of {A} P (c : Mon St A) (I : St -> Prop) s s' :
  hoare P c (fun _ => I) I I -> P s -> state_of (c s) = Some s' -> I s'.
Proof.
  intros Hc Hs. specialize (Hc s Hs). destruct (c s); simpl; intros [=]; by subst.
Qed.

Lemma hoare_quiet {A} P (c : Mon St A) s :
  hoare P c (fun _ _ => True) (fun _ => False) (fun _ => True) -> P s ->
  quiet (c s).
Proof. intros Hc Hs. specialize (Hc s Hs). by destruct (c s). Qed.
End Hoare.

Section HoareMemory.
Context {M : Type}.
Implicit Types (P E B : world M -> Prop) (w : world M).

Lemma hoare_load P this E B :
  hoare P (load this) (fun g w => P w /\ guards w !! this = Some g) E B.
Proof.
  intros w Hw. unfold hoare, load in *.
  destruct (guards w !! this) eqn:Hg; simpl; auto.
Qed.

Lemma hoare_read_m_owns_lock P this E B :
  hoare P (read_m_owns_lock this)
    (fun b w => P w /\ exists g, guards w !! this = Some g /\ b = m_owns_lock g)
    E B.
Proof.
  intros w Hw. unfold read_m_owns_lock, bind, load, ret.
  destruct (guards w !! this) eqn:Hg; simpl; eauto.
Qed.

Lemma hoare_read_m_mutex P this E B :
  hoare P (read_m_mutex this)
    (fun p w => P w /\ exists g, guards w !! this = Some g /\ p = m_mutex g)
    E B.
Proof.
  intros w Hw. unfold read_m_mutex, bind, load, ret.
  destruct (guards w !! this) eqn:Hg; simpl; eauto.
Qed.

Lemma hoare_write_m_owns_lock P this b (Q : unit -> world M -> Prop) E B :
  (forall w g, P w -> guards w !! this = Some g ->
     Q tt (set_guard this (UniqueLock (m_mutex g) b) w)) ->
  hoare P (write_m_owns_lock this b) Q E B.
Proof.
  intros HQ w Hw. unfold write_m_owns_lock, bind, load.
  destruct (guards w !! this) eqn:Hg; [| done]. by apply HQ.
Qed.

Lemma hoare_write_m_mutex P this p (Q : unit -> world M -> Prop) E B :
  (forall w g, P w -> guards w !! this = Some g ->
     Q tt (set_guard this (UniqueLock p (m_owns_lock g)) w)) ->
  hoare P (write_m_mutex this p) Q E B.
Proof.
  intros HQ w Hw. unfold write_m_mutex, bind, load.
  destruct (guards w !! this) eqn:Hg; [| done]. by apply HQ.
Qed.

Lemma hoare_init P this p b (Q : unit -> world M -> Prop) E B :
  (forall w, P w -> Q tt (set_guard this (UniqueLock p b) w)) ->
  hoare P (init this p b) Q E B.
Proof. intros HQ w Hw. by apply HQ. Qed.

Lemma hoare_arrow {A} P this ev (method : Mon M A) (Q : A -> world M -> Prop) E B :
  (forall w g a m,
     P w -> guards w !! this = Some g -> m_mutex g = Some a ->
     mutexes w !! a = Some m ->
     match method m with
     | Returned x m' => Q x (after ev a m' w)
     | Raised _ m' | Terminated m' => E (after ev a m' w)
     | Blocked m' => B (after ev a m' w)
     | Undefined => True
     end) ->
  hoare P (arrow this ev method) Q E B.
Proof.
  intros Hm w Hw. unfold arrow, read_m_mutex. unfold bind, load, ret, call.
  destruct (guards w !! this) as [g |] eqn:Hg; simpl; [| done].
  destruct (m_mutex g) as [a |] eqn:Ha; simpl; [| done].
  destruct (mutexes w !! a) as [m |] eqn:Hma; simpl; [| done].
  specialize (Hm w g a m Hw Hg Ha Hma). by destruct (method m).
Qed.
End HoareMemory.

Section HoareKeep.
Context {M : Type}.
Implicit Types (P E B : world M -> Prop) (w : world M).

Lemma hoare_load_keep P this E B :
  hoare P (load this) (fun _ => P) E B.
Proof.
  apply (hoare_weaken _ _ _ _ _ _ _ _ _ (hoare_load P this E B)); tauto.
Qed.

Lemma hoare_read_m_owns_lock_keep P this E B :
  hoare P (read_m_owns_lock this) (fun _ => P) E B.
Proof.
  apply (hoare_weaken _ _ _ _ _ _ _ _ _ (hoare_read_m_owns_lock P this E B));
    tauto.
Qed.

Lemma hoare_read_m_mutex_keep P this E B :
  hoare P (read_m_mutex this) (fun _ => P) E B.
Proof.
  apply (hoare_weaken _ _ _ _ _ _ _ _ _ (hoare_read_m_mutex P this E B)); tauto.
Qed.
End HoareKeep.

(** ** The silent build raises nothing *)

Section Quiet.
Context {T_MUTEX : Type} `{!Lockable T_MUTEX}.
Context (cfg : config).

Local Abbreviation any := (fun _ : world T_MUTEX => True).
Local Abbreviation none := (fun _ : world T_MUTEX => False).

Lemma quiet_arrow {A} this ev (method : Mon T_MUTEX A) :
  (forall m, quiet (method m)) ->
  hoare any (arrow this ev method) (fun _ => any) none any.
Proof.
  intros Hm. apply hoare_arrow. intros w g a m _ _ _ _.
  specialize (Hm m). by destruct (method m).
Qed.

Ltac quiet_go Hq :=
  repeat first
    [ apply hoare_khmz_noexcept
    | apply quiet_arrow; intros m'; apply (Hq _ m')
    | apply (hoare_bind _ _ _ (fun _ _ => True)); [| intros ?]
    | apply hoare_ret; done
    | apply hoare_read_m_owns_lock_keep
    | apply hoare_read_m_mutex_keep
    | apply hoare_load_keep
    | apply hoare_write_m_owns_lock; done
    | apply hoare_write_m_mutex; done
    | apply hoare_init; done
    | apply hoare_when; [intros _ | done]
    | apply hoare_khmz_throw;
        [intros Ht; unfold throwing, silent in *; congruence | done] ].

Lemma member_quiet_hoare t f :
  silent cfg -> quiet_lock_type T_MUTEX cfg ->
  hoare any (call_member cfg t f) (fun _ => any) none any.
Proof.
  intros Hsilent Hquiet. unfold silent in Hsilent.
  destruct f; simpl;
    unfold unique_lock.ctor, unique_lock.default_ctor, unique_lock.move_ctor,
      unique_lock.move_assign, unique_lock.dtor, unique_lock.lock,
      unique_lock.try_lock, unique_lock.unlock, unique_lock.release,
      unique_lock.owns_lock, unique_lock.mutex_lock,
      unique_lock.mutex_try_lock, unique_lock.mutex_unlock;
    rewrite ?Hsilent; quiet_go Hquiet.
Qed.

Lemma guard_ctor_quiet_hoare t a :
  quiet_lock_type T_MUTEX cfg ->
  hoare any (lock_guard.ctor cfg t a) (fun _ => any) none any
  /\ forall g, hoare any (lock_guard.dtor cfg t g) (fun _ => any) none any.
Proof.
  intros Hquiet.
  assert (Hcall : forall {A} p ev (method : Mon T_MUTEX A),
             (forall m, quiet (method m)) ->
             hoare any (call p ev method) (fun _ => any) none any).
  { intros A p ev method Hm w _. unfold call.
    destruct p as [b |]; [| done].
    destruct (mutexes w !! b) as [m |]; [| done].
    specialize (Hm m). by destruct (method m). }
  split; [| intros g]; unfold lock_guard.ctor, lock_guard.dtor;
    apply hoare_khmz_noexcept.
  - apply (hoare_bind _ _ _ (fun _ _ => True)); [| intros ?; by apply hoare_ret].
    apply Hcall. intros m. apply (Hquiet t m).
  - apply Hcall. intros m. apply (Hquiet t m).
Qed.

(** X9: with [KHMZ_DISABLE_THROW] defined and a lock type whose three
    member functions raise nothing in that build, no member function of
    [unique_lock], no sequence of them, and neither the constructor nor the
    destructor of [lock_guard] ever lets an exception escape or terminates
    the program, from any state and with any arguments. *)
Theorem silent_build_raises_nothing t f (prog : list (tid * member))
    a g (w : world T_MUTEX) :
  silent cfg ->
  quiet_lock_type T_MUTEX cfg ->
  quiet (call_member cfg t f w)
  /\ quiet (run_members cfg prog w)
  /\ quiet (lock_guard.ctor cfg t a w)
  /\ quiet (lock_guard.dtor cfg t g w).
Proof.
  intros Hsilent Hquiet. split; [| split; [| split]].
  - apply (hoare_quiet any); [by apply member_quiet_hoare | done].
  - apply (hoare_quiet any); [| done]. clear w.
    induction prog as [| [t' f'] rest IH]; simpl; [by apply hoare_ret |].
    apply (hoare_bind _ _ _ (fun _ _ => True)); [| intros _; exact IH].
    by apply member_quiet_hoare.
  - apply (hoare_quiet any); [by apply guard_ctor_quiet_hoare | done].
  - apply (hoare_quiet any); [by apply guard_ctor_quiet_hoare | done].
Qed.
End Quiet.

(** The two lock types of the header raise nothing in the silent build, and
    [recursive_mutex] raises nothing in any build. *)
Lemma mutex_quiet_when_silent cfg :
  silent cfg -> quiet_lock_type mutex.t cfg.
Proof.
  intros Hs t m. simpl. rewrite mutex_lock_eq, mutex_unlock_eq, mutex_try_lock_eq.
  rewrite Hs. split; [| split].
  - destruct (Win32.WaitForSingleObject t (mutex.m_hMutex m) Win32.INFINITE);
      [| done].
    by destruct (code =? Win32.WAIT_OBJECT_0).
  - destruct (Win32.ReleaseMutex t (mutex.m_hMutex m)) as [ok h].
    by destruct (negb (ok =? 0)).
  - by destruct (Win32.WaitForSingleObject t (mutex.m_hMutex m) 0).
Qed.

Lemma recursive_mutex_quiet cfg : quiet_lock_type recursive_mutex.t cfg.
Proof.
  intros t rm. simpl.
  rewrite recursive_lock_eq, recursive_unlock_eq, recursive_try_lock_eq.
  split; [| split].
  - by destruct (Win32.EnterCriticalSection t (recursive_mutex.m_cs rm)).
  - by destruct (Win32.LeaveCriticalSection t (recursive_mutex.m_cs rm)).
  - by destruct (Win32.TryEnterCriticalSection t (recursive_mutex.m_cs rm)).
Qed.

(** ** An owning guard always refers to a live lock *)

Section Sound.
Context {T_MUTEX : Type} `{!Lockable T_MUTEX}.
Context (cfg : config).
Implicit Types (w : world T_MUTEX) (g o d : unique_lock_obj).

Lemma sound_guard_after w g ev a m m' :
  mutexes w !! a = Some m -> sound_guard w g -> sound_guard (after ev a m' w) g.
Proof.
  intros Hm Hg Hown. destruct (Hg Hown) as (b & Hb & Hlive).
  exists b. split; [done |]. simpl. rewrite lookup_insert.
  case_decide; [by eexists | done].
Qed.

Lemma guards_sound_after w ev a m m' :
  mutexes w !! a = Some m -> guards_sound w -> guards_sound (after ev a m' w).
Proof. intros Hm Hw this g Hg. apply (sound_guard_after _ _ _ _ m); eauto. Qed.

Lemma sound_except_weaken w x : guards_sound w -> sound_except x w.
Proof. intros Hw this g _. apply Hw. Qed.

Lemma sound_except_set_guard w x g :
  sound_except x w -> sound_except x (set_guard x g w).
Proof.
  intros Hw this g' Hne Hg'. rewrite guards_set_guard_ne in Hg' by done.
  exact (Hw this g' Hne Hg').
Qed.

Lemma guards_sound_set_guard w x g :
  sound_except x w -> sound_guard w g -> guards_sound (set_guard x g w).
Proof.
  intros Hw Hg this g' Hg'. destruct (decide (this = x)) as [-> | Hne].
  - rewrite guards_set_guard in Hg'. injection Hg' as <-. exact Hg.
  - rewrite guards_set_guard_ne in Hg' by done. exact (Hw this g' Hne Hg').
Qed.

Lemma sound_unowned w p : sound_guard w (UniqueLock p false).
Proof. by intros [=]. Qed.

Lemma sound_after_live w this g ev a m m' :
  sound_except this w -> guards w !! this = Some g -> m_mutex g = Some a ->
  mutexes w !! a = Some m -> guards_sound (after ev a m' w).
Proof.
  intros Hw Hg Ha Hm this' g' Hg'.
  destruct (decide (this' = this)) as [-> | Hne].
  - change (guards (after ev a m' w)) with (guards w) in Hg'.
    rewrite Hg in Hg'. injection Hg' as <-. intros _. exists a.
    split; [done |]. simpl. rewrite lookup_insert_eq. by eexists.
  - apply (sound_guard_after _ _ _ _ m); [done |]. exact (Hw this' g' Hne Hg').
Qed.

Local Abbreviation inv := (@guards_sound T_MUTEX).

Lemma sound_arrow {A} this ev (method : Mon T_MUTEX A) :
  hoare inv (arrow this ev method)
    (fun _ w => guards_sound w /\ refers_to_live this w) inv inv.
Proof.
  apply hoare_arrow. intros w g a m Hw Hg Ha Hm.
  pose proof (guards_sound_after w ev a m) as Hafter.
  destruct (method m) as [x m' | e m' | m' | m' |];
    [| by apply Hafter | by apply Hafter | by apply Hafter | done].
  split; [by apply Hafter |]. exists g, a. split; [done |]. split; [done |].
  simpl. rewrite lookup_insert_eq. by eexists.
Qed.

Lemma sound_arrow_keep {A} this ev (method : Mon T_MUTEX A) :
  hoare inv (arrow this ev method) (fun _ => inv) inv inv.
Proof.
  apply (hoare_weaken _ _ _ _ _ _ _ _ _ (sound_arrow this ev method)); tauto.
Qed.

Lemma sound_write_flag this b :
  hoare (fun w => guards_sound w /\ (b = true -> refers_to_live this w))
    (write_m_owns_lock this b) (fun _ => inv) inv inv.
Proof.
  apply hoare_write_m_owns_lock. intros w g [Hw Hlive] Hg.
  apply guards_sound_set_guard; [by apply sound_except_weaken |].
  intros Hb. simpl in Hb. destruct (Hlive Hb) as (g' & a & Hg' & Ha & Hm).
  rewrite Hg in Hg'. injection Hg' as <-. by exists a.
Qed.

Lemma sound_detach other :
  hoare inv (write_m_mutex other None ;; write_m_owns_lock other false)
    (fun _ => inv) inv inv.
Proof.
  apply (hoare_bind _ _ _ (fun _ => sound_except other)).
  - apply hoare_write_m_mutex. intros w g Hw _.
    by apply sound_except_set_guard, sound_except_weaken.
  - intros _. apply hoare_write_m_owns_lock. intros w g Hw _.
    apply guards_sound_set_guard; [done | apply sound_unowned].
Qed.

Lemma sound_check c e :
  hoare inv (when c (khmz_throw cfg e)) (fun _ => inv) inv inv.
Proof. apply hoare_when; [intros _; by apply hoare_khmz_throw | done]. Qed.

Lemma sound_acquire_then_own t this :
  hoare inv (unique_lock.mutex_lock cfg t this ;; write_m_owns_lock this true)
    (fun _ => inv) inv inv.
Proof.
  apply (hoare_bind _ _ _ (fun _ w => guards_sound w /\ refers_to_live this w)).
  - apply sound_arrow.
  - intros _.
    apply (hoare_weaken _ _ _ _ _ _ _ _ _ (sound_write_flag this true)); tauto.
Qed.

Lemma sound_transfer this other :
  this <> other ->
  hoare inv
    (q <- read_m_mutex other ;;
     write_m_mutex this q ;;
     b <- read_m_owns_lock other ;;
     write_m_owns_lock this b ;;
     write_m_mutex other None ;;
     write_m_owns_lock other false)
    (fun _ => inv) inv inv.
Proof.
  intros Hne.
  apply (hoare_bind _ _ _
           (fun q w => guards_sound w
                       /\ exists o, guards w !! other = Some o /\ q = m_mutex o));
    [apply hoare_read_m_mutex | intros q].
  apply (hoare_bind _ _ _
           (fun _ w => sound_except this w
                       /\ (exists o, guards w !! other = Some o /\ m_mutex o = q
                                     /\ sound_guard w o)
                       /\ exists d, guards w !! this = Some d /\ m_mutex d = q)).
  { apply hoare_write_m_mutex. intros w d [Hw (o & Ho & ->)] Hd.
    split; [by apply sound_except_set_guard, sound_except_weaken |]. split.
    - exists o. rewrite guards_set_guard_ne by done.
      split; [done |]. split; [done |]. exact (Hw other o Ho).
    - eexists. split; [apply guards_set_guard | done]. }
  intros _.
  apply (hoare_bind _ _ _
           (fun b w => sound_except this w
                       /\ (exists o, guards w !! other = Some o /\ m_mutex o = q
                                     /\ m_owns_lock o = b /\ sound_guard w o)
                       /\ exists d, guards w !! this = Some d /\ m_mutex d = q)).
  { intros w (Hw & (o & Ho & Hq & Hso) & Hd).
    unfold read_m_owns_lock, bind, load, ret. rewrite Ho.
    split; [done |]. split; [| done]. by exists o. }
  intros b.
  apply (hoare_bind _ _ _ (fun _ => inv)); [| intros _; apply sound_detach].
  apply hoare_write_m_owns_lock.
  intros w d' (Hw & (o & Ho & Hq & Hb & Hso) & (d & Hd & Hdq)) Hd'.
  rewrite Hd in Hd'. injection Hd' as <-.
  apply guards_sound_set_guard; [done |].
  rewrite Hdq, <- Hq, <- Hb. by destruct o.
Qed.

Lemma member_sound_hoare t f :
  hoare inv (call_member cfg t f) (fun _ => inv) inv inv.
Proof.
  destruct f as [this m | this | this other | this other | this | this | this
                 | this | this | this]; simpl.
  - (* unique_lock(T_MUTEX&) *)
    unfold unique_lock.ctor. apply hoare_khmz_noexcept.
    apply (hoare_bind _ _ _ (fun _ => sound_except this)).
    + apply hoare_init. intros w Hw.
      by apply sound_except_set_guard, sound_except_weaken.
    + intros _. apply hoare_arrow. intros w g a mu Hw Hg Ha Hmu.
      pose proof (sound_after_live w this g EvLock a mu) as Hafter.
      destruct (T_lock cfg t mu); try done; by apply Hafter.
  - (* unique_lock() *)
    unfold unique_lock.default_ctor. apply hoare_khmz_noexcept, hoare_init.
    intros w Hw. apply guards_sound_set_guard;
      [by apply sound_except_weaken | apply sound_unowned].
  - (* unique_lock(unique_lock&&) *)
    unfold unique_lock.move_ctor. apply hoare_khmz_noexcept.
    apply (hoare_bind _ _ _
             (fun o w => guards_sound w /\ guards w !! other = Some o));
      [apply hoare_load | intros o].
    apply (hoare_bind _ _ _ (fun _ => inv)); [| intros _; apply sound_detach].
    apply hoare_init. intros w [Hw Ho].
    apply guards_sound_set_guard; [by apply sound_except_weaken |].
    exact (Hw other o Ho).
  - (* operator=(unique_lock&&) *)
    unfold unique_lock.move_assign. apply hoare_khmz_noexcept.
    apply hoare_when; [| done]. intros Hne.
    apply negb_true_iff, bool_decide_eq_false in Hne.
    apply (hoare_bind _ _ _ (fun _ => inv));
      [apply hoare_read_m_owns_lock_keep | intros owns].
    apply (hoare_bind _ _ _ (fun _ => inv));
      [apply hoare_read_m_mutex_keep | intros p].
    apply (hoare_bind _ _ _ (fun _ => inv)); [| intros _; by apply sound_transfer].
    apply hoare_when; [intros _; apply sound_arrow_keep | done].
  - (* ~unique_lock() *)
    unfold unique_lock.dtor. apply hoare_khmz_noexcept.
    apply (hoare_bind _ _ _ (fun _ => inv));
      [apply hoare_read_m_owns_lock_keep | intros owns].
    apply hoare_when; [intros _; apply sound_arrow_keep | done].
  - (* lock() *)
    unfold unique_lock.lock.
    apply (hoare_bind _ _ _ (fun _ => inv));
      [apply hoare_read_m_owns_lock_keep | intros owns].
    apply (hoare_bind _ _ _ (fun _ => inv)); [apply sound_check | intros _].
    destruct (KHMZ_DISABLE_THROW cfg); [apply sound_acquire_then_own |].
    apply (hoare_try_catch _ _ _ _ inv); [apply sound_acquire_then_own | | done].
    intros e. apply (hoare_bind _ _ _ (fun _ => inv)); [| intros _; by apply hoare_throw].
    apply (hoare_weaken _ _ _ _ _ _ _ _ _ (sound_write_flag this false));
      try tauto. intros w Hw. by split.
  - (* try_lock() *)
    unfold unique_lock.try_lock.
    apply (hoare_bind _ _ _ (fun _ => inv)); [| intros _; by apply hoare_ret].
    apply (hoare_bind _ _ _ (fun _ => inv));
      [apply hoare_read_m_owns_lock_keep | intros owns].
    apply (hoare_bind _ _ _ (fun _ => inv)); [apply sound_check | intros _].
    apply (hoare_bind _ _ _ (fun _ w => guards_sound w /\ refers_to_live this w));
      [apply sound_arrow | intros b].
    apply (hoare_bind _ _ _ (fun _ => inv));
      [| intros _; apply hoare_read_m_owns_lock_keep].
    apply (hoare_weaken _ _ _ _ _ _ _ _ _ (sound_write_flag this b)); tauto.
  - (* unlock() *)
    unfold unique_lock.unlock.
    apply (hoare_bind _ _ _ (fun _ => inv));
      [apply hoare_read_m_owns_lock_keep | intros owns].
    apply (hoare_bind _ _ _ (fun _ => inv)); [apply sound_check | intros _].
    apply (hoare_bind _ _ _ (fun _ => inv)); [apply sound_arrow_keep | intros _].
    apply (hoare_weaken _ _ _ _ _ _ _ _ _ (sound_write_flag this false));
      try tauto. intros w Hw. by split.
  - (* release() *)
    unfold unique_lock.release. apply hoare_khmz_noexcept, sound_detach.
  - (* owns_lock() *)
    unfold unique_lock.owns_lock.
    apply (hoare_bind _ _ _ (fun _ => inv)); [| intros _; by apply hoare_ret].
    apply hoare_khmz_noexcept, hoare_read_m_owns_lock_keep.
Qed.

(** X10: every member function of [unique_lock] keeps the invariant that a
    guard which owns refers to a live lock: if it holds of every guard
    before a sequence of member calls, by any threads and with any arguments,
    it holds of every guard in the state the sequence leaves, whether the
    last call returned, raised, terminated or is waiting. *)
Theorem guards_stay_sound (prog : list (tid * member)) w w' :
  guards_sound w ->
  state_of (run_members cfg prog w) = Some w' ->
  guards_sound w'.
Proof.
  intros Hw. apply (hoare_state_of inv); [| done]. clear w w' Hw.
  induction prog as [| [t f] rest IH]; simpl; [by apply hoare_ret |].
  apply (hoare_bind _ _ _ (fun _ => inv)); [| intros _; exact IH].
  apply member_sound_hoare.
Qed.

Lemma well_defined_khmz_noexcept {St A} (body : Mon St A) s :
  well_defined (body s) -> well_defined (khmz_noexcept cfg body s).
Proof.
  unfold well_defined, khmz_noexcept, noexcept.
  destruct (cpp11 cfg); by destruct (body s).
Qed.

(** X11: where every owning guard refers to a live lock, the destructor (in
    every build) and [unlock()] (in the default build) of a live guard never
    dereference a null or dangling pointer: each has a defined behaviour as
    soon as the [unlock()] of the lock the guard refers to has one. *)
Theorem sound_guard_never_dangles t w this g :
  guards_sound w ->
  guards w !! this = Some g ->
  (forall a m, m_mutex g = Some a -> mutexes w !! a = Some m ->
               well_defined (T_unlock cfg t m)) ->
  well_defined (unique_lock.dtor cfg t this w)
  /\ (throwing cfg -> well_defined (unique_lock.unlock cfg t this w)).
Proof.
  intros Hw Hg Hdef. destruct (m_owns_lock g) eqn:Hown.
  - destruct (Hw this g Hg Hown) as (a & Ha & [m Hm]).
    specialize (Hdef a m Ha Hm). split.
    + unfold unique_lock.dtor. apply well_defined_khmz_noexcept.
      step_guard Hg. rewrite Hown. simpl. unfold unique_lock.mutex_unlock.
      rewrite (arrow_alive _ _ _ _ _ _ _ Hg Ha Hm).
      unfold well_defined in *. by destruct (T_unlock cfg t m).
    + intros _. by apply (unlock_associated _ _ _ _ g a m).
  - split.
    + by rewrite (dtor_unowned _ _ _ _ g).
    + intros Hcfg. by rewrite (unlock_unowned_throwing _ _ _ _ g).
Qed.
End Sound.

(** ** unique_lock: how the member functions compose *)

Lemma release_only_clears_guard_steps {M} cfg (w : world M) this g :
  guards w !! this = Some g ->
  unique_lock.release cfg this w = Returned tt (set_guard this detached w)
  /\ guards (set_guard this detached w) !! this = Some detached.
Proof.
  intros Hg. split; [| apply guards_set_guard].
  unfold unique_lock.release. apply khmz_noexcept_Returned.
  step_guard Hg.
  rewrite (write_m_owns_lock_alive _ _ _ _ (guards_set_guard _ _ _)).
  simpl. by rewrite set_guard_twice.
Qed.

Section GuardMore.
Context {T_MUTEX : Type} `{!Lockable T_MUTEX}.
Context (cfg : config) (t : tid).
Implicit Types (w : world T_MUTEX) (g : unique_lock_obj).

Lemma lock_reaches_the_lock w this g a m :
  guards w !! this = Some g ->
  (m_owns_lock g = false \/ silent cfg) ->
  m_mutex g = Some a -> mutexes w !! a = Some m ->
  unique_lock.lock cfg t this w
  = match T_lock cfg t m with
    | Returned _ m' =>
        Returned tt (set_guard this (UniqueLock (Some a) true) (after EvLock a m' w))
    | Raised e m' =>
        Raised e (set_guard this (UniqueLock (Some a) false) (after EvLock a m' w))
    | Terminated m' => Terminated (after EvLock a m' w)
    | Blocked m' => Blocked (after EvLock a m' w)
    | Undefined => Undefined
    end
  \/ (silent cfg /\ exists e m', T_lock cfg t m = Raised e m').
Proof.
  intros Hg Hcase Ha Hm.
  rewrite (lock_reaches_acquire _ _ _ _ _ Hg Hcase).
  destruct (KHMZ_DISABLE_THROW cfg) eqn:Hcfg.
  - rewrite (acquire_then_own _ _ _ _ _ _ _ Hg Ha Hm).
    destruct (T_lock cfg t m) as [[] m' | e m' | m' | m' |]; eauto.
  - left. unfold try_catch. rewrite (acquire_then_own _ _ _ _ _ _ _ Hg Ha Hm).
    destruct (T_lock cfg t m) as [[] m' | e m' | m' | m' |]; try done.
    assert (Hg' : guards (after EvLock a m' w) !! this = Some g) by done.
    rewrite (bind_Returned _ _ _ _ _ (write_m_owns_lock_alive _ _ _ _ Hg')).
    by rewrite Ha.
Qed.

Lemma lock_returns w this g a m m' :
  guards w !! this = Some g ->
  (m_owns_lock g = false \/ silent cfg) ->
  m_mutex g = Some a -> mutexes w !! a = Some m ->
  T_lock cfg t m = Returned tt m' ->
  unique_lock.lock cfg t this w
  = Returned tt (set_guard this (UniqueLock (Some a) true) (after EvLock a m' w)).
Proof.
  intros Hg Hcase Ha Hm Hl.
  destruct (lock_reaches_the_lock _ _ _ _ _ Hg Hcase Ha Hm)
    as [-> | (_ & e & m'' & Hr)]; [by rewrite Hl | congruence].
Qed.

Lemma unlock_returns w this g a m m' :
  guards w !! this = Some g ->
  (m_owns_lock g = true \/ silent cfg) ->
  m_mutex g = Some a -> mutexes w !! a = Some m ->
  T_unlock cfg t m = Returned tt m' ->
  unique_lock.unlock cfg t this w
  = Returned tt (set_guard this (UniqueLock (Some a) false) (after EvUnlock a m' w)).
Proof.
  intros Hg Hcase Ha Hm Hu.
  rewrite (unlock_reaches_release _ _ _ _ _ Hg Hcase).
  by rewrite (release_then_clear _ _ _ _ _ _ _ Hg Ha Hm), Hu.
Qed.

Lemma try_lock_returns w this g a m b m' :
  guards w !! this = Some g ->
  (m_owns_lock g = false \/ silent cfg) ->
  m_mutex g = Some a -> mutexes w !! a = Some m ->
  T_try_lock cfg t m = Returned b m' ->
  unique_lock.try_lock cfg t this w
  = Returned b (set_guard this (UniqueLock (Some a) b) (after EvTryLock a m' w)).
Proof.
  intros Hg Hcase Ha Hm Htry.
  rewrite (try_lock_reaches_attempt _ _ _ _ _ Hg Hcase).
  by rewrite (attempt_then_record _ _ _ _ _ _ _ Hg Ha Hm), Htry.
Qed.

Lemma owns_lock_alive w this g :
  guards w !! this = Some g ->
  unique_lock.owns_lock cfg this w = Returned (m_owns_lock g) w.
Proof.
  intros Hg. unfold unique_lock.owns_lock. apply khmz_noexcept_Returned.
  by apply read_m_owns_lock_alive.
Qed.

Lemma guard_ctor_eq w this m mu :
  mutexes w !! m = Some mu ->
  unique_lock.ctor cfg t this m w
  = khmz_noexcept cfg (fun _ =>
      result_map
        (fun mu' => after EvLock m mu' (set_guard this (UniqueLock (Some m) true) w))
        (T_lock cfg t mu)) w.
Proof.
  intros Hm. unfold unique_lock.ctor.
  assert (Hbody : (init this (Some m) true ;; unique_lock.mutex_lock cfg t this) w
                  = result_map
                      (fun mu' => after EvLock m mu'
                                    (set_guard this (UniqueLock (Some m) true) w))
                      (T_lock cfg t mu)).
  { unfold bind at 1, init, unique_lock.mutex_lock.
    by rewrite (arrow_alive _ this (UniqueLock (Some m) true) m mu
                  _ _ (guards_set_guard _ _ _) eq_refl Hm). }
  unfold khmz_noexcept, noexcept. destruct (cpp11 cfg); cbv beta; by rewrite Hbody.
Qed.

(** X12: the acquiring constructor of [unique_lock] on a live lock calls
    that lock's [lock()] exactly once, whatever the call does.  When the
    call returns, the constructor returns and the new guard owns the lock.
    When the call throws, a C++11 build terminates the program and an older
    build lets the exception out of the constructor. *)
Theorem unique_lock_ctor_spec w this m mu :
  mutexes w !! m = Some mu ->
  let built mu' := after EvLock m mu' (set_guard this (UniqueLock (Some m) true) w) in
  (forall mu', state_of (T_lock cfg t mu) = Some mu' ->
     state_of (unique_lock.ctor cfg t this m w) = Some (built mu')
     /\ trace (built mu') = trace w ++ [EvLock m])
  /\ (forall mu', T_lock cfg t mu = Returned tt mu' ->
        unique_lock.ctor cfg t this m w = Returned tt (built mu')
        /\ guards (built mu') !! this = Some (UniqueLock (Some m) true))
  /\ (forall e mu', T_lock cfg t mu = Raised e mu' ->
        unique_lock.ctor cfg t this m w
        = if cpp11 cfg then Terminated (built mu') else Raised e (built mu')).
Proof.
  intros Hm built. rewrite (guard_ctor_eq _ _ _ _ Hm).
  unfold khmz_noexcept, noexcept. split; [| split].
  - intros mu' Hs. split; [| done].
    destruct (cpp11 cfg), (T_lock cfg t mu); simpl in *; by simplify_eq.
  - intros mu' ->. split; [by destruct (cpp11 cfg) |].
    subst built. simpl. apply lookup_insert_eq.
  - intros e mu' ->. by destruct (cpp11 cfg).
Qed.

(** X13: on an unowned guard that refers to a live lock, [lock()] followed
    by [unlock()] returns when the lock's own [lock()] and [unlock()] do;
    [owns_lock()] answers true in between and false afterwards; the guards
    are as before, the lock is in the state its two calls left, and exactly
    one [lock()] and then one [unlock()] were called on it. *)
Theorem guard_lock_unlock_round_trip w this g a m m1 m2 :
  guards w !! this = Some g ->
  m_owns_lock g = false ->
  m_mutex g = Some a ->
  mutexes w !! a = Some m ->
  T_lock cfg t m = Returned tt m1 ->
  T_unlock cfg t m1 = Returned tt m2 ->
  exists w',
    lock_then_unlock cfg t this w = Returned (true, false) w'
    /\ guards w' = guards w
    /\ mutexes w' = <[a := m2]> (mutexes w)
    /\ trace w' = trace w ++ [EvLock a; EvUnlock a].
Proof.
  intros Hg Ho Ha Hm Hl Hu. unfold lock_then_unlock.
  rewrite (bind_Returned _ _ _ _ _
             (lock_returns _ _ _ _ _ _ Hg (or_introl Ho) Ha Hm Hl)).
  set (w1 := set_guard this _ _).
  assert (Hg1 : guards w1 !! this = Some (UniqueLock (Some a) true))
    by apply guards_set_guard.
  rewrite (bind_Returned _ _ _ _ _ (owns_lock_alive _ _ _ Hg1)).
  assert (Hm1 : mutexes w1 !! a = Some m1) by (simpl; apply lookup_insert_eq).
  rewrite (bind_Returned _ _ _ _ _
             (unlock_returns _ _ _ _ _ _ Hg1 (or_introl eq_refl) eq_refl Hm1 Hu)).
  set (w2 := set_guard this _ _).
  assert (Hg2 : guards w2 !! this = Some (UniqueLock (Some a) false))
    by apply guards_set_guard.
  rewrite (bind_Returned _ _ _ _ _ (owns_lock_alive _ _ _ Hg2)).
  exists w2. split; [done |]. subst w2 w1. simpl. split; [| split].
  - rewrite insert_insert_eq. apply insert_id. rewrite Hg. f_equal.
    destruct g; simpl in *; congruence.
  - by rewrite insert_insert_eq.
  - by rewrite <- app_assoc.
Qed.

(** X14: in the default build a second [lock()] with no [unlock()] in
    between raises "already owned", and a second [unlock()] with no [lock()]
    in between raises "no lock to release"; the failing second call calls
    nothing on the lock, so the lock was acquired, or released, once. *)
Theorem second_call_is_refused w this g a m m' :
  throwing cfg ->
  guards w !! this = Some g ->
  m_mutex g = Some a ->
  mutexes w !! a = Some m ->
  (m_owns_lock g = false -> T_lock cfg t m = Returned tt m' ->
     (unique_lock.lock cfg t this ;; unique_lock.lock cfg t this) w
     = Raised already_owned_lock
         (set_guard this (UniqueLock (Some a) true) (after EvLock a m' w)))
  /\ (m_owns_lock g = true -> T_unlock cfg t m = Returned tt m' ->
        (unique_lock.unlock cfg t this ;; unique_lock.unlock cfg t this) w
        = Raised no_lock_to_release
            (set_guard this (UniqueLock (Some a) false) (after EvUnlock a m' w))).
Proof.
  intros Hcfg Hg Ha Hm. split.
  - intros Ho Hl.
    rewrite (bind_Returned _ _ _ _ _
               (lock_returns _ _ _ _ _ _ Hg (or_introl Ho) Ha Hm Hl)).
    by apply (lock_owned_throwing _ _ _ _ (UniqueLock (Some a) true));
      [| apply guards_set_guard |].
  - intros Ho Hu.
    rewrite (bind_Returned _ _ _ _ _
               (unlock_returns _ _ _ _ _ _ Hg (or_introl Ho) Ha Hm Hu)).
    by apply (unlock_unowned_throwing _ _ _ _ (UniqueLock (Some a) false));
      [| apply guards_set_guard |].
Qed.

(** X15: with [KHMZ_DISABLE_THROW] defined the ownership checks of
    [lock()] and [try_lock()] stop nothing.  On a guard that already owns
    its lock, [lock()] calls the lock's [lock()] again, and [try_lock()]
    makes a new attempt and overwrites the ownership flag with its result. *)
Theorem silent_checks_fall_through w this g a m :
  silent cfg ->
  guards w !! this = Some g ->
  m_owns_lock g = true ->
  m_mutex g = Some a ->
  mutexes w !! a = Some m ->
  (forall m', T_lock cfg t m = Returned tt m' ->
     unique_lock.lock cfg t this w = Returned tt (after EvLock a m' w)
     /\ guards (after EvLock a m' w) !! this = Some g)
  /\ (forall b m', T_try_lock cfg t m = Returned b m' ->
        unique_lock.try_lock cfg t this w
        = Returned b (set_guard this (UniqueLock (Some a) b) (after EvTryLock a m' w))).
Proof.
  intros Hs Hg Ho Ha Hm. split.
  - intros m' Hl. split; [| done].
    rewrite (lock_returns _ _ _ _ _ _ Hg (or_intror Hs) Ha Hm Hl).
    f_equal. apply set_guard_id.
    change (guards (after EvLock a m' w)) with (guards w). rewrite Hg. f_equal.
    destruct g; simpl in *; congruence.
  - intros b m' Htry.
    exact (try_lock_returns _ _ g _ m _ _ Hg (or_intror Hs) Ha Hm Htry).
Qed.

(** X16: after [release()] the destructor releases nothing: on any live
    guard, [release()] followed by the destructor returns, leaves the guard
    with no association, and calls nothing on any lock. *)
Theorem release_then_destroy w this g :
  guards w !! this = Some g ->
  (unique_lock.release cfg this ;; unique_lock.dtor cfg t this) w
  = Returned tt (set_guard this detached w)
  /\ mutexes (set_guard this detached w) = mutexes w
  /\ trace (set_guard this detached w) = trace w.
Proof.
  intros Hg. split; [| done].
  rewrite (bind_Returned _ _ _ _ _
             (proj1 (release_only_clears_guard_steps cfg w this g Hg))).
  by apply (dtor_unowned _ _ _ _ detached); [apply guards_set_guard |].
Qed.

(** X17: moving there and back: when [B] holds nothing, [B = std::move(A)]
    followed by [A = std::move(B)] returns and leaves every guard, every
    lock and the record of calls exactly as they were. *)
Theorem move_round_trip w A B o :
  unique_lock.has_move cfg = true ->
  A <> B ->
  guards w !! A = Some o ->
  guards w !! B = Some detached ->
  (unique_lock.move_assign cfg t B A ;; unique_lock.move_assign cfg t A B) w
  = Returned tt w.
Proof.
  intros _ Hne HA HB. assert (Hne' : B <> A) by done.
  rewrite (bind_Returned _ _ _ _ _
             (move_assign_unowned _ _ _ _ _ detached o Hne' HB HA eq_refl)).
  destruct (moved_guards w B A o Hne') as (HA' & HB' & _ & _).
  rewrite (move_assign_unowned _ _ _ _ _ detached o Hne HA' HB' eq_refl).
  f_equal. destruct w as [ms gs tr]. unfold moved, set_guard. simpl in *.
  f_equal. apply map_eq. intros i. rewrite !lookup_insert.
  repeat case_decide; congruence.
Qed.
End GuardMore.

(** ** Guards on a basic lock *)

Section GuardedMutex.
Context (cfg : config).
Implicit Types (t : tid) (w : world mutex.t).

Lemma available_lock t m :
  available m -> mutex.lock cfg t m = Returned tt (mutex_held_by t).
Proof.
  intros (k & Hk & Hown & Hab). destruct m as [h]. simpl in Hk. subst h.
  destruct k as [o n ab]. simpl in *. subst o ab.
  by rewrite mutex_lock_eq.
Qed.

Lemma available_try_lock t m :
  available m -> mutex.try_lock cfg t m = Returned true (mutex_held_by t).
Proof.
  intros (k & Hk & Hown & Hab). destruct m as [h]. simpl in Hk. subst h.
  destruct k as [o n ab]. simpl in *. subst o ab.
  by rewrite mutex_try_lock_eq.
Qed.

Lemma held_unlock_once t :
  mutex.unlock cfg t (mutex_held_by t) = Returned tt fresh_mutex.
Proof. rewrite mutex_unlock_eq. simpl. by rewrite decide_True. Qed.

Lemma held_try_lock_other t t' :
  t <> t' ->
  mutex.try_lock cfg t' (mutex_held_by t) = Returned false (mutex_held_by t).
Proof.
  intros Hne. rewrite mutex_try_lock_eq. simpl. by rewrite decide_False.
Qed.

Lemma fresh_available : available fresh_mutex.
Proof. eexists. by split. Qed.

(** X18: when the lock's [lock()] throws in the constructor of a
    [lock_guard], the guarded scope never runs its body and calls no
    [unlock()]: a C++11 build terminates the program and an older build lets
    the exception out, after the one call of [lock()]. *)
Theorem lock_guard_failed_acquire {T_MUTEX : Type} `{!Lockable T_MUTEX} {A}
    t (w : world T_MUTEX) a m e m' (body : Mon (world T_MUTEX) A) :
  mutexes w !! a = Some m ->
  T_lock cfg t m = Raised e m' ->
  lock_guard.scope cfg t a body w
  = (if cpp11 cfg then Terminated (after EvLock a m' w)
     else Raised e (after EvLock a m' w))
  /\ trace (after EvLock a m' w) = trace w ++ [EvLock a]
  /\ releases a (trace (after EvLock a m' w)) = releases a (trace w).
Proof.
  intros Hm Hl. split; [| split; [done |]].
  - assert (Hbody : (call (Some a) EvLock (T_lock cfg t) ;;
                     ret (lock_guard.LockGuard a)) w
                    = Raised e (after EvLock a m' w)).
    { unfold bind. by rewrite (call_alive _ _ _ _ _ Hm), Hl. }
    assert (Hctor : lock_guard.ctor cfg t a w
                    = if cpp11 cfg then Terminated (after EvLock a m' w)
                      else Raised e (after EvLock a m' w)).
    { unfold lock_guard.ctor, khmz_noexcept, noexcept.
      destruct (cpp11 cfg); cbv beta zeta; simpl lock_guard.m_mutex;
        by rewrite Hbody. }
    unfold lock_guard.scope, bind. rewrite Hctor. by destruct (cpp11 cfg).
  - rewrite trace_after, releases_app, releases_lock. lia.
Qed.

(** X19: a [lock_guard] on an available basic lock gives the lock back:
    when the body leaves the scope with the lock as the constructor left it,
    the scope ends as the body did (it returns the body's value, or the
    body's exception propagates), with the lock as a freshly constructed,
    available one, after exactly one more [unlock()]. *)
Theorem lock_guard_gives_mutex_back {A} t w a m
    (body : Mon (world mutex.t) A) w2 :
  mutexes w !! a = Some m ->
  available m ->
  mutexes w2 !! a = Some (mutex_held_by t) ->
  (forall x, body (after EvLock a (mutex_held_by t) w) = Returned x w2 ->
     lock_guard.scope cfg t a body w
     = Returned x (after EvUnlock a fresh_mutex w2))
  /\ (forall e, body (after EvLock a (mutex_held_by t) w) = Raised e w2 ->
        lock_guard.scope cfg t a body w
        = Raised e (after EvUnlock a fresh_mutex w2))
  /\ mutexes (after EvUnlock a fresh_mutex w2) !! a = Some fresh_mutex
  /\ available fresh_mutex
  /\ releases a (trace (after EvUnlock a fresh_mutex w2))
     = S (releases a (trace w2)).
Proof.
  intros Hm Hav Hm2.
  destruct (@scope_exit_outcome mutex.t mutex_Lockable cfg t A w a m
              (mutex_held_by t) body w2 (mutex_held_by t) fresh_mutex
              Hm (available_lock t m Hav) Hm2 (held_unlock_once t))
    as [Hret Hraise].
  split; [exact Hret |]. split; [exact Hraise |].
  split; [simpl; apply lookup_insert_eq |].
  split; [apply fresh_available |].
  rewrite trace_after, releases_app, releases_one. lia.
Qed.

(** X20: mutual exclusion through guards: while thread [t1] holds an
    available basic lock through a guard [G] it has just constructed, a
    [try_lock()] by another thread [t2] on its own guard [H] returns false;
    once [G] is destroyed, the next [try_lock()] on [H] returns true, [H]
    owns the lock and [t2] is its owner. *)
Theorem guards_exclude_each_other t1 t2 G H L w m :
  t1 <> t2 ->
  G <> H ->
  mutexes w !! L = Some m ->
  available m ->
  guards w !! H = Some (UniqueLock (Some L) false) ->
  exists w',
    guarded_handover cfg t1 t2 G H L w = Returned (false, true) w'
    /\ guards w' !! H = Some (UniqueLock (Some L) true)
    /\ mutexes w' !! L = Some (mutex_held_by t2)
    /\ owned_by (mutex_held_by t2) t2.
Proof.
  intros Hne HGH Hm Hav HH. unfold guarded_handover.
  (* unique_lock<mutex> G(L) by t1 *)
  assert (H1 : unique_lock.ctor cfg t1 G L w
               = Returned tt (after EvLock L (mutex_held_by t1)
                                (set_guard G (UniqueLock (Some L) true) w))).
  { rewrite (@guard_ctor_eq mutex.t mutex_Lockable cfg t1 w G L m Hm).
    change (T_lock cfg t1 m) with (mutex.lock cfg t1 m).
    rewrite (available_lock t1 m Hav).
    by apply khmz_noexcept_Returned. }
  rewrite (bind_Returned _ _ _ _ _ H1). set (w1 := after EvLock _ _ _).
  (* H.try_lock() by t2 *)
  assert (HH1 : guards w1 !! H = Some (UniqueLock (Some L) false))
    by (subst w1; simpl; by rewrite lookup_insert_ne).
  assert (Hm1 : mutexes w1 !! L = Some (mutex_held_by t1))
    by (subst w1; simpl; apply lookup_insert_eq).
  rewrite (bind_Returned _ _ _ _ _
             (@try_lock_returns mutex.t mutex_Lockable cfg t2 w1 H _ L (mutex_held_by t1) false
                (mutex_held_by t1) HH1 (or_introl eq_refl) eq_refl Hm1
                (held_try_lock_other t1 t2 Hne))).
  set (w2 := set_guard H _ _).
  (* ~G by t1 *)
  assert (HG2 : guards w2 !! G = Some (UniqueLock (Some L) true)).
  { subst w2 w1. simpl. rewrite lookup_insert_ne by done.
    apply lookup_insert_eq. }
  assert (Hm2 : mutexes w2 !! L = Some (mutex_held_by t1))
    by (subst w2; simpl; apply lookup_insert_eq).
  rewrite (bind_Returned _ _ _ _ _
             (@dtor_owned mutex.t mutex_Lockable cfg t1 w2 G _ L (mutex_held_by t1) fresh_mutex
                HG2 eq_refl eq_refl Hm2 (held_unlock_once t1))).
  set (w3 := after EvUnlock _ _ _).
  (* H.try_lock() by t2 *)
  assert (HH3 : guards w3 !! H = Some (UniqueLock (Some L) false))
    by (subst w3 w2; simpl; apply lookup_insert_eq).
  assert (Hm3 : mutexes w3 !! L = Some fresh_mutex)
    by (subst w3; simpl; apply lookup_insert_eq).
  rewrite (bind_Returned _ _ _ _ _
             (@try_lock_returns mutex.t mutex_Lockable cfg t2 w3 H _ L fresh_mutex true
                (mutex_held_by t2) HH3 (or_introl eq_refl) eq_refl Hm3
                (available_try_lock t2 fresh_mutex fresh_available))).
  eexists. split; [done |]. split; [apply guards_set_guard |].
  split; [simpl; apply lookup_insert_eq |]. by eexists.
Qed.
End GuardedMutex.

(** ** Worked instances of the further properties *)

Lemma mutex_ctor_spec_witness :
  throwing default_build
  /\ silent silent_build
  /\ mutex.ctor default_build false = Raised create_failed null_mutex
  /\ mutex.ctor silent_build false = Returned tt null_mutex
  /\ mutex.lock silent_build thread_1 null_mutex = Returned tt null_mutex
  /\ ~ owned_by null_mutex thread_1.
Proof.
  assert (Ht : throwing default_build) by reflexivity.
  assert (Hs : silent silent_build) by reflexivity.
  split; [exact Ht |]. split; [exact Hs |].
  split; [exact (proj1 (proj2 (mutex_ctor_spec default_build thread_1)) Ht) |].
  destruct (proj2 (proj2 (mutex_ctor_spec silent_build thread_1)) Hs)
    as (Hc & Hl & _ & _ & Hno).
  split; [exact Hc |]. split; [exact Hl | exact Hno].
Defined.

Lemma mutex_lock_default_build_witness :
  throwing default_build
  /\ owned_by_other mutex_of_thread_1 thread_2
  /\ mutex.lock default_build thread_2 mutex_of_thread_1
     = Blocked mutex_of_thread_1
  /\ available fresh_mutex
  /\ (exists m', mutex.lock default_build thread_2 fresh_mutex = Returned tt m'
                 /\ owned_by m' thread_2)
  /\ (exists m', mutex.lock default_build thread_2 abandoned_mutex
                 = Raised lock_failed m').
Proof.
  assert (Ht : throwing default_build) by reflexivity.
  assert (Ho : owned_by_other mutex_of_thread_1 thread_2).
  { exists thread_1. split; [eexists; split; reflexivity | discriminate]. }
  assert (Hav : available fresh_mutex)
    by (eexists; split; [reflexivity | split; reflexivity]).
  split; [exact Ht |]. split; [exact Ho |].
  split; [exact (proj1 (mutex_lock_default_build default_build thread_2
                          mutex_of_thread_1 Ht) Ho) |].
  split; [exact Hav |].
  split; [exact (proj1 (proj2 (mutex_lock_default_build default_build thread_2
                                 fresh_mutex Ht)) Hav) |].
  apply (proj1 (proj2 (proj2 (mutex_lock_default_build default_build thread_2
                                abandoned_mutex Ht)))).
  - intros (o & (k & [= <-] & [=]) & _).
  - intros (k & [= <-] & _ & [=]).
  - intros (k & [= <-] & [=]).
Defined.

Lemma mutex_unlock_spec_witness :
  owned_by mutex_of_thread_1 thread_1
  /\ ~ owned_by mutex_of_thread_1 thread_2
  /\ (exists m', mutex.unlock default_build thread_1 mutex_of_thread_1
                 = Returned tt m' /\ ~ owned_by_other m' thread_1)
  /\ mutex.unlock default_build thread_2 mutex_of_thread_1
     = Raised release_failed mutex_of_thread_1
  /\ mutex.unlock silent_build thread_2 mutex_of_thread_1
     = Returned tt mutex_of_thread_1.
Proof.
  assert (Ho : owned_by mutex_of_thread_1 thread_1)
    by (eexists; split; reflexivity).
  assert (Hno : ~ owned_by mutex_of_thread_1 thread_2)
    by (intros (k & [= <-] & [=])).
  split; [exact Ho |]. split; [exact Hno |].
  split; [exact (proj1 (mutex_unlock_spec default_build thread_1
                          mutex_of_thread_1) Ho) |].
  split.
  - exact (proj2 (mutex_unlock_spec default_build thread_2 mutex_of_thread_1) Hno).
  - exact (proj2 (mutex_unlock_spec silent_build thread_2 mutex_of_thread_1) Hno).
Defined.

Lemma mutex_try_lock_agrees_with_lock_witness :
  throwing default_build
  /\ (mutex.try_lock default_build thread_1 fresh_mutex
      = Returned true mutex_of_thread_1
      <-> mutex.lock default_build thread_1 fresh_mutex
          = Returned tt mutex_of_thread_1)
  /\ mutex.lock default_build thread_1 fresh_mutex
     = Returned tt mutex_of_thread_1.
Proof.
  assert (Ht : throwing default_build) by reflexivity.
  pose proof (mutex_try_lock_agrees_with_lock default_build thread_1
                fresh_mutex mutex_of_thread_1 Ht) as Hiff.
  split; [exact Ht |]. split; [exact Hiff |].
  apply (proj1 Hiff). reflexivity.
Defined.

Lemma mutex_acquire_release_round_trip_witness :
  available fresh_mutex
  /\ (mutex.lock default_build thread_1 ;; mutex.unlock default_build thread_1)
       fresh_mutex = Returned tt fresh_mutex
  /\ (b <- mutex.try_lock default_build thread_1 ;;
      mutex.unlock default_build thread_1 ;; ret b) fresh_mutex
     = Returned true fresh_mutex.
Proof.
  assert (Hav : available fresh_mutex)
    by (eexists; split; [reflexivity | split; reflexivity]).
  split; [exact Hav |].
  exact (mutex_acquire_release_round_trip default_build thread_1 fresh_mutex Hav).
Defined.

Lemma mutex_handover_witness :
  thread_1 <> thread_2
  /\ available fresh_mutex
  /\ exists m',
      handover default_build thread_1 thread_2 fresh_mutex
      = Returned (false, true) m'
      /\ owned_by m' thread_2.
Proof.
  assert (Hne : thread_1 <> thread_2) by discriminate.
  assert (Hav : available fresh_mutex)
    by (eexists; split; [reflexivity | split; reflexivity]).
  split; [exact Hne |]. split; [exact Hav |].
  exact (mutex_handover default_build thread_1 thread_2 fresh_mutex Hne Hav).
Defined.

Lemma recursive_try_lock_agrees_with_lock_witness :
  Win32.OwningThread (recursive_mutex.m_cs (held thread_1 2)) = Some thread_1
  /\ (exists rm', recursive_mutex.try_lock default_build thread_1 (held thread_1 2)
                  = Returned true rm')
  /\ (recursive_mutex.try_lock default_build thread_2 (held thread_1 2)
      = Returned false (held thread_1 2)
      <-> recursive_mutex.lock default_build thread_2 (held thread_1 2)
          = Blocked (held thread_1 2)).
Proof.
  destruct (recursive_try_lock_agrees_with_lock default_build thread_1
              (held thread_1 2)) as (_ & _ & Hown & _).
  destruct (recursive_try_lock_agrees_with_lock default_build thread_2
              (held thread_1 2)) as (_ & Hblocked & _).
  split; [reflexivity |]. split; [exact (Hown eq_refl) |].
  exact (Hblocked (held thread_1 2)).
Defined.

Lemma silent_build_raises_nothing_witness :
  silent silent_build
  /\ quiet_lock_type mutex.t silent_build
  /\ quiet (call_member silent_build thread_2 (Unlock guard_G) owning_world)
  /\ quiet (run_members silent_build sample_program one_mutex)
  /\ quiet (lock_guard.ctor silent_build thread_1 lock_L
              (unowned_world abandoned_mutex)).
Proof.
  assert (Hs : silent silent_build) by reflexivity.
  pose proof (mutex_quiet_when_silent silent_build Hs) as Hq.
  destruct (@silent_build_raises_nothing mutex.t mutex_Lockable silent_build
              thread_2 (Unlock guard_G) sample_program lock_L
              (lock_guard.LockGuard lock_L) owning_world Hs Hq) as (Hcall & _).
  destruct (@silent_build_raises_nothing mutex.t mutex_Lockable silent_build
              thread_1 (Unlock guard_G) sample_program lock_L
              (lock_guard.LockGuard lock_L) one_mutex Hs Hq) as (_ & Hrun & _).
  destruct (@silent_build_raises_nothing mutex.t mutex_Lockable silent_build
              thread_1 (Unlock guard_G) sample_program lock_L
              (lock_guard.LockGuard lock_L) (unowned_world abandoned_mutex) Hs Hq)
    as (_ & _ & Hctor & _).
  split; [exact Hs |]. split; [exact Hq |].
  split; [exact Hcall |]. split; [exact Hrun | exact Hctor].
Defined.

Lemma guards_stay_sound_witness :
  guards_sound one_mutex
  /\ exists w',
      run_members default_build sample_program one_mutex = Returned tt w'
      /\ state_of (run_members default_build sample_program one_mutex) = Some w'
      /\ guards w' !! guard_G = Some detached
      /\ guards_sound w'.
Proof.
  assert (Hw : guards_sound one_mutex) by (intros this g [=]).
  split; [exact Hw |].
  eexists. split; [vm_compute; reflexivity |].
  split; [vm_compute; reflexivity |]. split; [vm_compute; reflexivity |].
  apply (@guards_stay_sound mutex.t mutex_Lockable default_build sample_program
           one_mutex _ Hw).
  vm_compute. reflexivity.
Defined.

Lemma mutex_unlock_defined cfg t m : well_defined (mutex.unlock cfg t m).
Proof.
  unfold well_defined. rewrite mutex_unlock_eq.
  destruct (Win32.ReleaseMutex t (mutex.m_hMutex m)) as [ok h].
  by destruct (negb (ok =? 0)), (KHMZ_DISABLE_THROW cfg).
Qed.

Lemma sound_guard_never_dangles_witness :
  guards_sound owning_world
  /\ guards owning_world !! guard_G = Some (UniqueLock (Some lock_L) true)
  /\ throwing default_build
  /\ well_defined (unique_lock.dtor default_build thread_1 guard_G owning_world)
  /\ well_defined (unique_lock.unlock default_build thread_1 guard_G owning_world).
Proof.
  assert (Hw : guards_sound owning_world).
  { intros this g Hg _. exists lock_L.
    destruct (decide (this = guard_G)) as [-> | Hne].
    - injection Hg as <-. split; [reflexivity | by eexists].
    - unfold owning_world in Hg. simpl in Hg.
      rewrite lookup_singleton_ne in Hg by done. discriminate. }
  assert (Hg : guards owning_world !! guard_G = Some (UniqueLock (Some lock_L) true))
    by reflexivity.
  assert (Ht : throwing default_build) by reflexivity.
  destruct (@sound_guard_never_dangles mutex.t mutex_Lockable default_build
              thread_1 owning_world guard_G _ Hw Hg
              (fun a m _ _ => mutex_unlock_defined default_build thread_1 m))
    as [Hd Hu].
  split; [exact Hw |]. split; [exact Hg |]. split; [exact Ht |].
  split; [exact Hd | exact (Hu Ht)].
Defined.

Lemma unique_lock_ctor_spec_witness :
  mutexes one_mutex !! lock_L = Some fresh_mutex
  /\ unique_lock.ctor default_build thread_1 guard_G lock_L one_mutex
     = Returned tt owning_world
  /\ unique_lock.ctor default_build thread_1 guard_G lock_L
       (unowned_world abandoned_mutex)
     = Terminated
         (after EvLock lock_L mutex_of_thread_1
            (set_guard guard_G (UniqueLock (Some lock_L) true)
               (unowned_world abandoned_mutex))).
Proof.
  assert (Hm : mutexes one_mutex !! lock_L = Some fresh_mutex) by reflexivity.
  split; [exact Hm |]. split.
  - exact (proj1 (proj1 (proj2
             (@unique_lock_ctor_spec mutex.t mutex_Lockable default_build
                thread_1 one_mutex guard_G lock_L fresh_mutex Hm))
             mutex_of_thread_1 eq_refl)).
  - exact (proj2 (proj2
             (@unique_lock_ctor_spec mutex.t mutex_Lockable default_build
                thread_1 (unowned_world abandoned_mutex) guard_G lock_L
                abandoned_mutex eq_refl))
             lock_failed mutex_of_thread_1 eq_refl).
Defined.

Lemma guard_lock_unlock_round_trip_witness :
  guards (unowned_world fresh_mutex) !! guard_G
  = Some (UniqueLock (Some lock_L) false)
  /\ mutexes (unowned_world fresh_mutex) !! lock_L = Some fresh_mutex
  /\ mutex.lock default_build thread_1 fresh_mutex = Returned tt mutex_of_thread_1
  /\ mutex.unlock default_build thread_1 mutex_of_thread_1 = Returned tt fresh_mutex
  /\ exists w',
      lock_then_unlock default_build thread_1 guard_G (unowned_world fresh_mutex)
      = Returned (true, false) w'
      /\ guards w' = guards (unowned_world fresh_mutex)
      /\ mutexes w' = <[lock_L := fresh_mutex]> (mutexes (unowned_world fresh_mutex))
      /\ trace w' = trace (unowned_world fresh_mutex)
                    ++ [EvLock lock_L; EvUnlock lock_L].
Proof.
  split; [reflexivity |]. split; [reflexivity |].
  split; [reflexivity |]. split; [reflexivity |].
  exact (@guard_lock_unlock_round_trip mutex.t mutex_Lockable default_build
           thread_1 (unowned_world fresh_mutex) guard_G
           (UniqueLock (Some lock_L) false) lock_L fresh_mutex mutex_of_thread_1
           fresh_mutex eq_refl eq_refl eq_refl eq_refl eq_refl eq_refl).
Defined.

Lemma second_call_is_refused_witness :
  throwing default_build
  /\ guards (unowned_world fresh_mutex) !! guard_G
     = Some (UniqueLock (Some lock_L) false)
  /\ mutexes (unowned_world fresh_mutex) !! lock_L = Some fresh_mutex
  /\ (unique_lock.lock default_build thread_1 guard_G ;;
      unique_lock.lock default_build thread_1 guard_G) (unowned_world fresh_mutex)
     = Raised already_owned_lock
         (set_guard guard_G (UniqueLock (Some lock_L) true)
            (after EvLock lock_L mutex_of_thread_1 (unowned_world fresh_mutex)))
  /\ (unique_lock.unlock default_build thread_1 guard_G ;;
      unique_lock.unlock default_build thread_1 guard_G) owning_world
     = Raised no_lock_to_release
         (set_guard guard_G (UniqueLock (Some lock_L) false)
            (after EvUnlock lock_L fresh_mutex owning_world)).
Proof.
  assert (Ht : throwing default_build) by reflexivity.
  split; [exact Ht |]. split; [reflexivity |]. split; [reflexivity |]. split.
  - exact (proj1 (@second_call_is_refused mutex.t mutex_Lockable default_build
                    thread_1 (unowned_world fresh_mutex) guard_G
                    (UniqueLock (Some lock_L) false) lock_L fresh_mutex
                    mutex_of_thread_1 Ht eq_refl eq_refl eq_refl)
             eq_refl eq_refl).
  - exact (proj2 (@second_call_is_refused mutex.t mutex_Lockable default_build
                    thread_1 owning_world guard_G
                    (UniqueLock (Some lock_L) true) lock_L mutex_of_thread_1
                    fresh_mutex Ht eq_refl eq_refl eq_refl)
             eq_refl eq_refl).
Defined.

Lemma silent_checks_fall_through_witness :
  silent silent_build
  /\ guards owning_world !! guard_G = Some (UniqueLock (Some lock_L) true)
  /\ mutexes owning_world !! lock_L = Some mutex_of_thread_1
  /\ unique_lock.try_lock silent_build thread_2 guard_G owning_world
     = Returned false
         (set_guard guard_G (UniqueLock (Some lock_L) false)
            (after EvTryLock lock_L mutex_of_thread_1 owning_world)).
Proof.
  assert (Hs : silent silent_build) by reflexivity.
  split; [exact Hs |]. split; [reflexivity |]. split; [reflexivity |].
  exact (proj2 (@silent_checks_fall_through mutex.t mutex_Lockable silent_build
                  thread_2 owning_world guard_G (UniqueLock (Some lock_L) true)
                  lock_L mutex_of_thread_1 Hs eq_refl eq_refl eq_refl eq_refl)
           false mutex_of_thread_1 eq_refl).
Defined.

Lemma release_then_destroy_witness :
  guards owning_world !! guard_G = Some (UniqueLock (Some lock_L) true)
  /\ (unique_lock.release default_build guard_G ;;
      unique_lock.dtor default_build thread_1 guard_G) owning_world
     = Returned tt (set_guard guard_G detached owning_world)
  /\ mutexes (set_guard guard_G detached owning_world) !! lock_L
     = Some mutex_of_thread_1.
Proof.
  split; [reflexivity |]. split; [| reflexivity].
  exact (proj1 (@release_then_destroy mutex.t mutex_Lockable default_build
                  thread_1 owning_world guard_G _ eq_refl)).
Defined.

Lemma move_round_trip_witness :
  unique_lock.has_move default_build = true
  /\ guard_G <> guard_H
  /\ guards guard_and_spare !! guard_G = Some (UniqueLock (Some lock_L) true)
  /\ guards guard_and_spare !! guard_H = Some detached
  /\ (unique_lock.move_assign default_build thread_1 guard_H guard_G ;;
      unique_lock.move_assign default_build thread_1 guard_G guard_H)
       guard_and_spare
     = Returned tt guard_and_spare.
Proof.
  assert (Hne : guard_G <> guard_H) by discriminate.
  split; [reflexivity |]. split; [exact Hne |].
  split; [reflexivity |]. split; [reflexivity |].
  exact (@move_round_trip mutex.t mutex_Lockable default_build thread_1
           guard_and_spare guard_G guard_H _ eq_refl Hne eq_refl eq_refl).
Defined.

Lemma lock_guard_failed_acquire_witness :
  mutexes (unowned_world abandoned_mutex) !! lock_L = Some abandoned_mutex
  /\ mutex.lock default_build thread_1 abandoned_mutex
     = Raised lock_failed mutex_of_thread_1
  /\ lock_guard.scope default_build thread_1 lock_L (ret tt)
       (unowned_world abandoned_mutex)
     = Terminated (after EvLock lock_L mutex_of_thread_1
                     (unowned_world abandoned_mutex)).
Proof.
  split; [reflexivity |]. split; [reflexivity |].
  exact (proj1 (@lock_guard_failed_acquire default_build mutex.t mutex_Lockable
                  unit thread_1 (unowned_world abandoned_mutex) lock_L
                  abandoned_mutex lock_failed mutex_of_thread_1 (ret tt)
                  eq_refl eq_refl)).
Defined.

Lemma lock_guard_gives_mutex_back_witness :
  mutexes one_mutex !! lock_L = Some fresh_mutex
  /\ available fresh_mutex
  /\ (let w1 := after EvLock lock_L (mutex_held_by thread_1) one_mutex in
      mutexes w1 !! lock_L = Some (mutex_held_by thread_1)
      /\ lock_guard.scope default_build thread_1 lock_L (ret tt) one_mutex
         = Returned tt (after EvUnlock lock_L fresh_mutex w1)
      /\ lock_guard.scope default_build thread_1 lock_L
           (throw (A := unit) (runtime_error "body")) one_mutex
         = Raised (runtime_error "body") (after EvUnlock lock_L fresh_mutex w1)
      /\ mutexes (after EvUnlock lock_L fresh_mutex w1) !! lock_L
         = Some fresh_mutex).
Proof.
  assert (Hav : available fresh_mutex)
    by (eexists; split; [reflexivity | split; reflexivity]).
  split; [reflexivity |]. split; [exact Hav |]. cbv zeta.
  split; [reflexivity |].
  destruct (lock_guard_gives_mutex_back default_build thread_1 one_mutex lock_L
              fresh_mutex (ret tt)
              (after EvLock lock_L (mutex_held_by thread_1) one_mutex)
              eq_refl Hav eq_refl) as (Hret & _ & Hlook & _).
  destruct (lock_guard_gives_mutex_back default_build thread_1 one_mutex lock_L
              fresh_mutex (throw (A := unit) (runtime_error "body"))
              (after EvLock lock_L (mutex_held_by thread_1) one_mutex)
              eq_refl Hav eq_refl) as (_ & Hraise & _).
  split; [exact (Hret tt eq_refl) |].
  split; [exact (Hraise (runtime_error "body") eq_refl) | exact Hlook].
Defined.

Lemma guards_exclude_each_other_witness :
  thread_1 <> thread_2
  /\ guard_H <> guard_G
  /\ mutexes (unowned_world fresh_mutex) !! lock_L = Some fresh_mutex
  /\ available fresh_mutex
  /\ guards (unowned_world fresh_mutex) !! guard_G
     = Some (UniqueLock (Some lock_L) false)
  /\ exists w',
      guarded_handover default_build thread_1 thread_2 guard_H guard_G lock_L
        (unowned_world fresh_mutex) = Returned (false, true) w'
      /\ guards w' !! guard_G = Some (UniqueLock (Some lock_L) true)
      /\ mutexes w' !! lock_L = Some (mutex_held_by thread_2)
      /\ owned_by (mutex_held_by thread_2) thread_2.
Proof.
  assert (Hne : thread_1 <> thread_2) by discriminate.
  assert (HGH : guard_H <> guard_G) by discriminate.
  assert (Hav : available fresh_mutex)
    by (eexists; split; [reflexivity | split; reflexivity]).
  split; [exact Hne |]. split; [exact HGH |]. split; [reflexivity |].
  split; [exact Hav |]. split; [reflexivity |].
  exact (guards_exclude_each_other default_build thread_1 thread_2 guard_H
           guard_G lock_L (unowned_world fresh_mutex) fresh_mutex
           Hne HGH eq_refl Hav eq_refl).
Defined.
